(** * A model of [src/Engine/ontology_mapping_engine.py] (OntoMapEngine)

    The engine is a three-stage cascade over pandas tables.  Tables are
    modelled as a list of column names and a list of rows; a row is an
    association list from column name to cell, and a column missing from a
    row reads as null (what [pd.concat] fills in).  Errors raised by the
    Python code are the [Err] branch of a small error monad.  The matcher
    backends (the [src.models] classes) and the abbreviation CSV are inputs
    of the model: every theorem quantifies over them. *)

From Stdlib Require Import List String Ascii ZArith QArith Bool Lia.
From Stdlib Require Import Sorting.Sorted Sorting.Permutation Structures.OrdersEx.
Import ListNotations.
Open Scope string_scope.
Open Scope list_scope.
Open Scope nat_scope.

(** ** Python dicts: insertion-ordered association lists *)

Definition Dict (V : Type) := list (string * V).

Definition dget {V : Type} (d : Dict V) (k : string) : option V :=
  match find (fun p => String.eqb (fst p) k) d with
  | Some (_, v) => Some v
  | None => None
  end.

Definition dmem {V : Type} (d : Dict V) (k : string) : bool :=
  existsb (fun p => String.eqb (fst p) k) d.

(** [d[k] = v]: an existing key keeps its position, a new key goes last. *)
Definition dset {V : Type} (d : Dict V) (k : string) (v : V) : Dict V :=
  if dmem d k
  then map (fun p => if String.eqb (fst p) k then (k, v) else p) d
  else d ++ [(k, v)].

(** [dict(zip(keys, values))] and dict comprehensions: later keys win. *)
Definition dict_of_list {V : Type} (l : list (string * V)) : Dict V :=
  fold_left (fun d p => dset d (fst p) (snd p)) l [].

(** ** Python values, rows and tables *)

(** A pandas cell: [NaN]/[None], a [str], an [int] or a [float]. *)
Inductive Cell : Type :=
| CNull
| CStr (s : string)
| CInt (z : Z)
| CFloat (q : Q).

Definition Q_eq_dec_struct (a b : Q) : {a = b} + {a <> b}.
Proof. decide equality; [apply Pos.eq_dec | apply Z.eq_dec]. Defined.

Definition cell_eq_dec (a b : Cell) : {a = b} + {a <> b}.
Proof.
  decide equality; [apply string_dec | apply Z.eq_dec | apply Q_eq_dec_struct].
Defined.

Definition cell_eqb (a b : Cell) : bool :=
  if cell_eq_dec a b then true else false.

(** A row: a dict from column name to cell. *)
Definition Row := Dict Cell.

(** [row[c]]: the first entry named [c]; an absent column is null. *)
Definition rget (r : Row) (c : string) : Cell :=
  match dget r c with Some v => v | None => CNull end.

Definition has_key (r : Row) (c : string) : bool := dmem r c.

(** [row[c] = v]: overwrite an existing column, or append a new one. *)
Definition rset (r : Row) (c : string) (v : Cell) : Row := dset r c v.

Record Table : Type := mkTable { tcols : list string; trows : list Row }.

Definition mem_str (x : string) (l : list string) : bool :=
  existsb (String.eqb x) l.

(** [df[c] = f(row)] for every row. *)
Definition set_col (t : Table) (c : string) (f : Row -> Cell) : Table :=
  mkTable (if mem_str c (tcols t) then tcols t else tcols t ++ [c])
          (map (fun r => rset r c (f r)) (trows t)).

(** [pd.concat(ts, ignore_index=True)]: the rows one after another, the
    column list the union of the column lists in order of appearance. *)
Definition union_cols (a b : list string) : list string :=
  a ++ filter (fun c => negb (mem_str c a)) b.

Definition concat_tables (ts : list Table) : Table :=
  mkTable (fold_left (fun acc t => union_cols acc (tcols t)) ts [])
          (flat_map trows ts).

(** The [original_value] column of a result table. *)
Definition table_originals (t : Table) : list Cell :=
  map (fun r => rget r "original_value") (trows t).

(** ** Raising code: a small error monad *)

Inductive Res (A : Type) : Type :=
| Ok (a : A)
| Err (msg : string).
Arguments Ok {A} a.
Arguments Err {A} msg.

Definition bind {A B : Type} (m : Res A) (k : A -> Res B) : Res B :=
  match m with Ok a => k a | Err e => Err e end.

Notation "x <- m ;; k" := (bind m (fun x => k))
  (at level 61, m at next level, right associativity).

(** ** [str.strip] and [str.lower]

    Strings are sequences of code points 0..255.  Python's [str.isspace]
    holds on 9-13, 28-32, 133 and 160 in that range; [str.lower] maps
    A-Z and the Latin-1 capitals 192-222 (except 215) up by 32. *)

Definition is_space (a : ascii) : bool :=
  let n := nat_of_ascii a in
  ((9 <=? n) && (n <=? 13)) || ((28 <=? n) && (n <=? 32))
  || (n =? 133) || (n =? 160).

Fixpoint drop_spaces (l : list ascii) : list ascii :=
  match l with
  | [] => []
  | a :: l' => if is_space a then drop_spaces l' else l
  end.

Definition strip (s : string) : string :=
  string_of_list_ascii
    (rev (drop_spaces (rev (drop_spaces (list_ascii_of_string s))))).

Definition lower_char (a : ascii) : ascii :=
  let n := nat_of_ascii a in
  if ((65 <=? n) && (n <=? 90)) || ((192 <=? n) && (n <=? 222) && negb (n =? 215))
  then ascii_of_nat (n + 32) else a.

Fixpoint lower (s : string) : string :=
  match s with
  | EmptyString => EmptyString
  | String a s' => String (lower_char a) (lower s')
  end.

(** ** numpy: [np.unique] and [np.setdiff1d] on string arrays

    numpy orders strings by code point, lexicographically. *)

Definition str_lt (a b : string) : Prop := String_as_OT.compare a b = Lt.

Definition str_leb (a b : string) : bool :=
  match String_as_OT.compare a b with Gt => false | _ => true end.

Fixpoint insert_sorted (x : string) (l : list string) : list string :=
  match l with
  | [] => [x]
  | y :: l' => if str_leb x y then x :: l else y :: insert_sorted x l'
  end.

Fixpoint sort_strings (l : list string) : list string :=
  match l with
  | [] => []
  | x :: l' => insert_sorted x (sort_strings l')
  end.

(** Drop an element equal to its predecessor (the mask of [np.unique]). *)
Fixpoint dedup_sorted (l : list string) : list string :=
  match l with
  | x :: ((y :: _) as l') =>
      if String.eqb x y then dedup_sorted l' else x :: dedup_sorted l'
  | _ => l
  end.

(** An element of a numpy [<U] array is stored padded with NUL
    characters, so [np.asarray] of a list of [str] loses the trailing
    NULs of each string: ['a\x00'] becomes ['a']. *)
Fixpoint drop_nuls (l : list ascii) : list ascii :=
  match l with
  | a :: l' => if Ascii.eqb a Ascii.zero then drop_nuls l' else l
  | [] => []
  end.

Definition np_str (s : string) : string :=
  string_of_list_ascii (rev (drop_nuls (rev (list_ascii_of_string s)))).

(** [np.unique(l)] on a list of [str]. *)
Definition np_unique (l : list string) : list string :=
  dedup_sorted (sort_strings (map np_str l)).

(** [np.setdiff1d(ar1, ar2)]: the unique values of [ar1] not in [ar2]. *)
Definition setdiff1d (ar1 ar2 : list string) : list string :=
  let u2 := np_unique ar2 in
  filter (fun x => negb (mem_str x u2)) (np_unique ar1).

(** ** Decimal rendering of [int]s, as in [f'top{i}_score'] and [str(z)] *)

Fixpoint digits_aux (fuel n : nat) (acc : string) : string :=
  match fuel with
  | 0 => acc
  | S f =>
      let acc' := String (ascii_of_nat (48 + n mod 10)) acc in
      if n <? 10 then acc' else digits_aux f (n / 10) acc'
  end.

Definition nat_str (n : nat) : string := digits_aux (S n) n "".

(** [int(s)] on a string of decimal digits. *)
Fixpoint dec_val (l : list ascii) : nat :=
  match l with
  | [] => 0
  | a :: l' => (nat_of_ascii a - 48) * 10 ^ List.length l' + dec_val l'
  end.

Definition Z_str (z : Z) : string :=
  if (z <? 0)%Z then String "-" (nat_str (Z.to_nat (- z)))
  else nat_str (Z.to_nat z).

Definition top_match (i : nat) : string := ("top" ++ nat_str i ++ "_match")%string.
Definition top_score (i : nat) : string := ("top" ++ nat_str i ++ "_score")%string.

(** ** The engine after [__init__]

    [__init__] deduplicates the corpus, validates the strategies and, for a
    stage-3 configuration, replaces the corpus by the labels of the
    normalised [corpus_df].  The model starts from the resulting fields. *)

Record Engine : Type := mkEngine {
  e_method : string;
  e_category : string;
  e_query : list string;
  e_corpus : list string;
  e_cura_map : Dict string;
  e_topk : nat;
  e_s2_strategy : string;
  e_s3_strategy : option string;
  e_s3_threshold : Q;
  e_test_or_prod : string
}.

(** The CSV at [ABBR_DICT_PATH], as [pd.read_csv] sees it: its
    [(code, name)] rows, a missing file ([FileNotFoundError]), or any other
    failure (malformed file, missing column, ...). *)
Inductive AbbrSource : Type :=
| AbbrFile (rows : list (string * string))
| AbbrNotFound
| AbbrBroken (err : string).

(** A matcher backend of [src.models], constructed with a strategy name, a
    query list, the corpus and [topk], then asked [get_match_results] with
    a curation map and [test_or_prod]. *)
Definition Backend : Type :=
  string -> list string -> list string -> nat -> Dict string -> string -> Table.

Fixpoint mapM {A B : Type} (f : A -> Res B) (l : list A) : Res (list B) :=
  match l with
  | [] => Ok []
  | x :: l' => y <- f x ;; ys <- mapM f l' ;; Ok (y :: ys)
  end.

(** [d[k]], raising [KeyError] on a missing key. *)
Definition dindex {V : Type} (d : Dict V) (k : string) : Res V :=
  match dget d k with Some v => Ok v | None => Err "KeyError" end.

Section Engine.

Variable e : Engine.

(** [_exact_matching], lines 145-155. *)
Definition corpus_normalized : list string :=
  map (fun c => lower (strip c)) (e_corpus e).

Definition is_exact (q : string) : bool :=
  mem_str (lower (strip q)) corpus_normalized.

Definition exact_matching : list string := filter is_exact (e_query e).

(** [_map_shortname_to_fullname], lines 157-180. *)
Definition map_shortname_to_fullname (abbr : AbbrSource) (non_exact_list : list string)
  : Res (Dict string) :=
  short_to_name <-
    match abbr with
    | AbbrFile rows =>
        Ok (dict_of_list (map (fun p => (strip (fst p), strip (snd p))) rows))
    | AbbrNotFound => Ok []
    | AbbrBroken err => Err err
    end ;;
  Ok (fold_left
        (fun replaced q =>
           let q_strip := strip q in
           dset replaced q
             (match dget short_to_name q_strip with
              | Some n => n
              | None => q_strip
              end))
        non_exact_list []).

(** [_om_model_from_strategy] followed by [get_match_results]. *)
Definition run_backend (be : Backend) (strategy : string) (qs : list string)
  (cura : Dict string) : Res Table :=
  if mem_str strategy ["lm"; "st"; "rag"; "rag_bie"]%string
  then Ok (be strategy qs (e_corpus e) (e_topk e) cura (e_test_or_prod e))
  else Err "ValueError: strategy should be 'st', 'lm', 'rag', or 'rag_bie'".

(** Stage-1 table, lines 254-262. *)
Definition curated_or_self (q : string) : Cell :=
  match dget (e_cura_map e) q with Some v => CStr v | None => CStr q end.

Definition exact_df : Table :=
  let t0 := mkTable ["original_value"]
              (map (fun q => [("original_value", CStr q)]) exact_matching) in
  let t1 := set_col t0 "curated_ontology"
              (fun r => match rget r "original_value" with
                        | CStr q => curated_or_self q
                        | c => c
                        end) in
  let t2 := set_col t1 "match_level" (fun _ => CInt 1) in
  let t3 := set_col t2 "stage" (fun _ => CInt 1) in
  fold_left
    (fun t i =>
       let t' := set_col t (top_match i) (fun r => rget r "curated_ontology") in
       set_col t' (top_score i) (fun _ => CFloat 1))
    (seq 1 (e_topk e)) t3.

(** Remaining queries, line 265. *)
Definition non_exact_matches_ls : list string :=
  setdiff1d (e_query e) exact_matching.

End Engine.

(** ** Joining backend results back to the original queries *)

(** [s_res.rename(columns={"original_value": "updated_value"})]. *)
Definition rename_col (c : string) : string :=
  if String.eqb c "original_value" then "updated_value" else c.

Definition rename_row (r : Row) : Row := map (fun p => (rename_col (fst p), snd p)) r.

Definition rename_original (t : Table) : Table :=
  mkTable (map rename_col (tcols t)) (map rename_row (trows t)).

(** The key the join sees on a backend row: its [original_value] after the
    rename. *)
Definition backend_key (r : Row) : Cell := rget (rename_row r) "updated_value".

(** [pd.merge(left, right, on=key, how="left")].  Each left row is paired
    with the right rows carrying the same key, in order; a left row with no
    partner is kept once, with every right column null.  A key missing from
    the right table raises [KeyError]; a key column occurring twice raises
    [ValueError].  (The left tables here only have [original_value] and
    [updated_value], so no other column of the renamed right table can
    collide with them.) *)
Definition left_join_row (rrows : list Row) (key : string) (rcols : list string)
  (lr : Row) : list Row :=
  match filter (fun rr => cell_eqb (rget rr key) (rget lr key)) rrows with
  | [] => [lr ++ map (fun c => (c, CNull)) rcols]
  | ms => map (fun rr => lr ++ filter (fun p => negb (String.eqb (fst p) key)) rr) ms
  end.

(** The dtype pandas infers for a column from its cells: [int64] when all
    are ints, [float64] when all are numbers or nulls (a null is [NaN]) and
    one is not an int, [object] when one is a string or there is no cell. *)
Inductive Dtype : Type := DObject | DInt64 | DFloat64.

Definition is_int_cell (c : Cell) : bool :=
  match c with CInt _ => true | _ => false end.

Definition is_num_cell (c : Cell) : bool :=
  match c with CStr _ => false | _ => true end.

Definition col_dtype (cs : list Cell) : Dtype :=
  match cs with
  | [] => DObject
  | _ :: _ =>
      if forallb is_int_cell cs then DInt64
      else if forallb is_num_cell cs then DFloat64 else DObject
  end.

Definition dtype_name (d : Dtype) : string :=
  match d with DObject => "object" | DInt64 => "int64" | DFloat64 => "float64" end.

(** The merge checks the key columns after finding them: when both sides
    have rows, a key of strings (the left keys here) cannot be merged with a
    numeric key ([_maybe_coerce_merge_keys]). *)
Definition merge_left (l r : Table) (key : string) : Res Table :=
  if negb (mem_str key (tcols r)) then Err "KeyError: updated_value"
  else if 2 <=? count_occ string_dec (tcols r) key
  then Err "ValueError: the column label 'updated_value' is not unique"
  else
    let rdt := col_dtype (map (fun rr => rget rr key) (trows r)) in
    match trows l, rdt with
    | _ :: _, (DInt64 | DFloat64) =>
        Err ("ValueError: You are trying to merge on object and " ++ dtype_name rdt ++
             " columns for key '" ++ key ++ "'. If you wish to proceed you should use pd.concat")
    | _, _ =>
        let rcols := filter (fun c => negb (String.eqb c key)) (tcols r) in
        Ok (mkTable (tcols l ++ rcols) (flat_map (left_join_row (trows r) key rcols) (trows l)))
    end.

(** [pd.to_numeric(col, errors='coerce').fillna(0)] on one cell; the
    parsing of numeric strings is a parameter. *)
Definition coerce_score (parse_num : string -> option Q) (c : Cell) : Q :=
  match c with
  | CFloat q => q
  | CInt z => inject_Z z
  | CStr s => match parse_num s with Some q => q | None => 0%Q end
  | CNull => 0%Q
  end.

Definition Qlt_bool (a b : Q) : bool := negb (Qle_bool b a).

(** [q.strip()] on a value of the [original_value] column. *)
Definition as_str (c : Cell) : Res string :=
  match c with CStr s => Ok s | _ => Err "AttributeError: strip" end.

Section Cascade.

Variable parse_num : string -> option Q.
Variable e : Engine.
Variable abbr : AbbrSource.
Variable be : Backend.

(** The preparation of one matching stage (lines 277-288 for stage 2,
    363-375 for stage 3): abbreviation expansion, the [replace_df] table,
    and the curation map re-keyed by the expanded strings. *)
Definition stage_prepare (qs : list string)
  : Res (Table * list string * Dict string) :=
  mapping_dict <- map_shortname_to_fullname abbr qs ;;
  updated_queries <- mapM (dindex mapping_dict) qs ;;
  let replace_df :=
    mkTable ["original_value"; "updated_value"]
      (map (fun p => [("original_value", CStr (fst p)); ("updated_value", CStr (snd p))])
           (combine qs updated_queries)) in
  updated_cura_map <-
    fold_left
      (fun acc kv =>
         d <- acc ;;
         if dmem mapping_dict (fst kv)
         then (k' <- dindex mapping_dict (fst kv) ;; Ok (dset d k' (snd kv)))
         else Ok d)
      (e_cura_map e) (Ok ([] : Dict string)) ;;
  Ok (replace_df, updated_queries, updated_cura_map).

(** The curated label of a stage row, lines 301-302 and 392-393. *)
Definition curated_or_not_found (r : Row) : Cell :=
  match rget r "original_value" with
  | CStr o => match dget (e_cura_map e) o with
              | Some v => CStr v
              | None => CStr "Not Found"
              end
  | _ => CStr "Not Found"
  end.

(** One matching stage (lines 277-303 for stage 2, 363-394 for stage 3):
    preparation, backend call, left join back to the original queries,
    curated label and stage tag. *)
Definition stage_table (strategy : string) (qs : list string) (stage : Z) : Res Table :=
  p <- stage_prepare qs ;;
  let '(replace_df, updated_queries, updated_cura_map) := p in
  s_res <- run_backend e be strategy updated_queries updated_cura_map ;;
  merged <- merge_left replace_df (rename_original s_res) "updated_value" ;;
  let with_cura := set_col merged "curated_ontology" curated_or_not_found in
  Ok (set_col with_cura "stage" (fun _ => CInt stage)).

Definition low_confidence (r : Row) : bool :=
  Qlt_bool (coerce_score parse_num (rget r "top1_score")) (e_s3_threshold e).

(** Lines 339-344: the [original_value] of every low-confidence stage-2
    row, in row order. *)
Definition queries_for_s3 (s2_res : Table) : list Cell :=
  map (fun r => rget r "original_value") (filter low_confidence (trows s2_res)).

(** Line 398: [s2_res[~s2_res['original_value'].isin(queries_for_s3)]]. *)
Definition s2_res_filtered (s2_res : Table) : Table :=
  mkTable (tcols s2_res)
    (filter (fun r => negb (existsb (cell_eqb (rget r "original_value")) (queries_for_s3 s2_res)))
            (trows s2_res)).

(** [run], lines 236-417. *)
Definition run : Res Table :=
  let exact := exact_df e in
  let rest := non_exact_matches_ls e in
  match rest with
  | [] => Ok exact
  | _ :: _ =>
    s2_res <- stage_table (e_s2_strategy e) rest 2 ;;
    match e_s3_strategy e with
    | None => Ok (concat_tables [exact; s2_res])
    | Some s3 =>
      if negb (mem_str "top1_score" (tcols s2_res))
      then Ok (concat_tables [exact; s2_res])
      else if 2 <=? count_occ string_dec (tcols s2_res) "top1_score"
      (* line 335: [s2_res['top1_score']] is then a DataFrame *)
      then Err "AttributeError: 'DataFrame' object has no attribute 'dtype'"
      else
        match queries_for_s3 s2_res with
        | [] => Ok (concat_tables [exact; s2_res])
        | _ :: _ =>
          qs3 <- mapM as_str (queries_for_s3 s2_res) ;;
          s3_res <- stage_table s3 qs3 3 ;;
          Ok (concat_tables [exact; s2_res_filtered s2_res; s3_res])
        end
    end
  end.

End Cascade.

(** ** The corpus normaliser, [_normalize_df] (lines 102-143) *)

Definition is_digit (a : ascii) : bool :=
  let n := nat_of_ascii a in (48 <=? n) && (n <=? 57).

Fixpoint take_digits (l : list ascii) : list ascii :=
  match l with
  | a :: l' => if is_digit a then a :: take_digits l' else []
  | [] => []
  end.

(** [str.extract(r'(C\d+)')]: the leftmost [C] followed by one or more
    digits, with all the digits that follow it; [NaN] when there is none.
    Digits are the ASCII ones: the other Unicode decimal digits that
    Python's [\d] accepts are not represented in this byte-string model. *)
Fixpoint extract_code (l : list ascii) : option (list ascii) :=
  match l with
  | a :: ((b :: _) as l') =>
      if Ascii.eqb a "C" && is_digit b then Some (a :: take_digits l')
      else extract_code l'
  | _ => None
  end.

Definition is_null (c : Cell) : bool :=
  match c with CNull => true | _ => false end.

(** Python [==] between cells, as [drop_duplicates] compares keys:
    [1 == 1.0], but [1 != "1"]. *)
Definition py_eq (a b : Cell) : bool :=
  match a, b with
  | CNull, CNull => true
  | CStr x, CStr y => String.eqb x y
  | CInt x, CInt y => Z.eqb x y
  | CInt x, CFloat y => Qeq_bool (inject_Z x) y
  | CFloat x, CInt y => Qeq_bool x (inject_Z y)
  | CFloat x, CFloat y => Qeq_bool x y
  | _, _ => false
  end.

(** [df.drop_duplicates(subset=keep)]: the first row of each key. *)
Fixpoint drop_duplicates_aux (keep : list string) (seen : list (list Cell))
  (rows : list Row) : list Row :=
  match rows with
  | [] => []
  | r :: rs =>
      let k := map (rget r) keep in
      if existsb (fun k' => forallb (fun p => py_eq (fst p) (snd p)) (combine k k')) seen
      then drop_duplicates_aux keep seen rs
      else r :: drop_duplicates_aux keep (k :: seen) rs
  end.

Definition drop_duplicates (keep : list string) (rows : list Row) : list Row :=
  drop_duplicates_aux keep [] rows.

(** [df.dropna(subset=keep)]. *)
Definition dropna (keep : list string) (rows : list Row) : list Row :=
  filter (fun r => forallb (fun k => negb (is_null (rget r k))) keep) rows.

Section Normalize.

(** [str] of a [float] (Python's [repr]) is not modelled. *)
Variable float_str : Q -> string.

(** [str(cell)], as [astype(str)] applies it. *)
Definition py_str (c : Cell) : string :=
  match c with
  | CNull => "nan"
  | CStr s => s
  | CInt z => Z_str z
  | CFloat q => float_str q
  end.

Definition extract_clean_code (c : Cell) : Cell :=
  match extract_code (list_ascii_of_string (py_str c)) with
  | Some code => CStr (string_of_list_ascii code)
  | None => CNull
  end.

Definition normalize_df (df : Table) (need_code : bool) : Res Table :=
  df1 <-
    (if mem_str "official_label" (tcols df) then Ok df
     else if mem_str "label" (tcols df)
     then Ok (set_col df "official_label" (fun r => rget r "label"))
     else Err "ValueError: DataFrame must contain 'official_label' or 'label'") ;;
  df2 <-
    (if need_code then
       if mem_str "clean_code" (tcols df1) then Ok df1
       else if mem_str "obo_id" (tcols df1)
       then Ok (set_col df1 "clean_code" (fun r => extract_clean_code (rget r "obo_id")))
       else Err "ValueError: DataFrame must contain 'clean_code' or 'obo_id' for RAG/RAG_BIE strategies"
     else Ok df1) ;;
  let keep := ["official_label"] ++ (if need_code then ["clean_code"] else []) in
  let df3 := mkTable (tcols df2) (drop_duplicates keep (dropna keep (trows df2))) in
  let df4 := set_col df3 "official_label" (fun r => CStr (py_str (rget r "official_label"))) in
  Ok (if mem_str "clean_code" (tcols df4)
      then set_col df4 "clean_code" (fun r => CStr (py_str (rget r "clean_code")))
      else df4).

End Normalize.

(** ** The constructor, [__init__] (lines 30-100) *)

(** [dict.fromkeys(xs)]: each key once, in order of first appearance. *)
Definition dict_fromkeys (xs : list string) : Dict unit :=
  dict_of_list (map (fun x => (x, tt)) xs).

(** [list(d)]: the keys of a dict, in order. *)
Definition dict_keys {V : Type} (d : Dict V) : list string := map fst d.

(** [Series.unique()]: the values in order of first appearance. *)
Definition pd_unique (xs : list string) : list string := dict_keys (dict_fromkeys xs).

Section Init.

Variable float_str : Q -> string.

(** [OntoMapEngine(method, category, query, corpus, cura_map, topk,
    s2_strategy, s3_strategy, s3_threshold, **other_params)].  Of
    [other_params] the constructor reads two entries: [test_or_prod]
    ([None] when the key is absent) and [corpus_df] ([None] when absent or
    [None]).  The result is the engine and the [corpus_df] entry left in
    [other_params] for the stage-3 backends; logging is not modelled. *)
Definition init (method category : string) (query corpus : list string)
  (cura_map : Dict string) (topk : nat) (s2_strategy : string)
  (s3_strategy : option string) (s3_threshold : Q)
  (test_or_prod : option string) (corpus_df : option Table)
  : Res (Engine * option Table) :=
  let corpus0 := dict_keys (dict_fromkeys corpus) in
  tp <- match test_or_prod with
        | Some v => Ok v
        | None => Err "ValueError: test_or_prod value must be defined in other_params dictionary"
        end ;;
  if negb (mem_str s2_strategy ["lm"; "st"])
  then Err "ValueError: s2_strategy must be 'lm' or 'st'"
  else
    match s3_strategy with
    | None =>
        Ok (mkEngine method category query corpus0 cura_map topk s2_strategy None
                     s3_threshold tp, corpus_df)
    | Some s3 =>
        if negb (mem_str s3 ["rag"; "rag_bie"])
        then Err "ValueError: s3_strategy must be 'rag', 'rag_bie', or None"
        else
          match corpus_df with
          | None => Err "ValueError: corpus_df must be provided for 'rag'/'rag_bie' for running stage 3"
          | Some df =>
              df' <- normalize_df float_str df true ;;
              Ok (mkEngine method category query
                    (pd_unique (map (fun r => py_str float_str (rget r "official_label")) (trows df')))
                    cura_map topk s2_strategy (Some s3) s3_threshold tp, Some df')
          end
    end.

End Init.

(** One iteration of the [top{i}] loop of lines 260-262, on one row. *)
Definition top_row_step (r : Row) (i : nat) : Row :=
  rset (rset r (top_match i) (rget r "curated_ontology")) (top_score i) (CFloat 1).

(** What a stage-1 row for query [q] holds (section 4.3 of the spec). *)
Definition exact_row_ok (e : Engine) (q : string) (r : Row) : Prop :=
  rget r "original_value" = CStr q /\ rget r "stage" = CInt 1 /\
  rget r "match_level" = CInt 1 /\
  forall i, 1 <= i <= e_topk e ->
    rget r (top_score i) = CFloat 1 /\ rget r (top_match i) = curated_or_self e q.

(** The expansion of one string as the resolver computes it: the stripped
    name of the last CSV row whose stripped code is [q.strip()], otherwise
    [q.strip()] itself. *)
Definition abbr_lookup (rows : list (string * string)) (c : string) : option string :=
  fold_left (fun acc p => if String.eqb (strip (fst p)) c then Some (strip (snd p)) else acc)
            rows None.

Definition expansion (abbr : AbbrSource) (q : string) : string :=
  match abbr with
  | AbbrFile rows => match abbr_lookup rows (strip q) with Some n => n | None => strip q end
  | _ => strip q
  end.

(** A backend table keyed by query string (section 4.4 of the spec): no two
    of its rows carry the same [original_value]. *)
Definition keyed (B : Table) : Prop := NoDup (map backend_key (trows B)).

(** ** Concrete configurations for the examples *)

Definition ex_parse (s : string) : option Q :=
  if String.eqb s "0.95" then Some (95 # 100) else None.

Definition ex_float_str (q : Q) : string :=
  (Z_str (Qnum q) ++ "/" ++ Z_str (Zpos (Qden q)))%string.

(** A backend returning one row per distinct query; under [lm] the query
    [XYZ] scores 0.25 and the others the string ["0.95"]. *)
Definition ex_backend : Backend := fun strategy qs _ _ _ _ =>
  mkTable ["original_value"; "top1_match"; "top1_score"]
    (map (fun q => [("original_value", CStr q); ("top1_match", CStr q);
                    ("top1_score",
                       if String.eqb strategy "lm"
                       then if String.eqb q "XYZ" then CFloat (1 # 4) else CStr "0.95"
                       else CFloat 1)])
         (nodup string_dec qs)).

(** A backend whose output has no [top1_score] column. *)
Definition ex_backend_no_score : Backend := fun _ qs _ _ _ _ =>
  mkTable ["original_value"; "top1_match"]
    (map (fun q => [("original_value", CStr q); ("top1_match", CStr q)]) (nodup string_dec qs)).

Definition ex_engine (qs : list string) (s3 : option string) : Engine :=
  mkEngine "mt" "disease" qs ["Lung Cancer"] [("Lung Cancer", "lung carcinoma")] 1 "lm" s3
           (9 # 10) "test".

Definition res_table (r : Res Table) : Table :=
  match r with Ok t => t | Err _ => mkTable [] [] end.

Definition mixed_label_table : Table :=
  mkTable ["official_label"] [[("official_label", CInt 1)]; [("official_label", CStr "1")]].


(** A backend that drops the query [abc] from its output. *)
Definition ex_backend_drop : Backend := fun s qs cs k cm tp =>
  let t := ex_backend s qs cs k cm tp in
  mkTable (tcols t) (filter (fun r => negb (cell_eqb (rget r "original_value") (CStr "abc"))) (trows t)).

(** Five queries: two exact matches of the corpus, [XYZ] twice (escalated
    to stage 3) and [abc] (kept at stage 2). *)
Definition ex_E3 : Engine :=
  ex_engine ["XYZ"; "Lung Cancer"; "abc"; "XYZ"; " lung cancer"] (Some "rag").

Definition ex_T3 : Table := res_table (run ex_parse ex_E3 AbbrNotFound ex_backend).

Definition ex_S2 : Table :=
  res_table (stage_table ex_E3 AbbrNotFound ex_backend "lm" (non_exact_matches_ls ex_E3) 2).

Definition obo_table : Table :=
  mkTable ["official_label"; "obo_id"]
    [[("official_label", CStr "lung adenocarcinoma"); ("obo_id", CStr "NCIT:C3512")];
     [("official_label", CStr "unknown"); ("obo_id", CNull)]].


(** An abbreviation file mapping [LC] to [Lung Cancer]. *)
Definition ex_abbr : AbbrSource := AbbrFile [("LC", "Lung Cancer")].

(** Three queries, one of them twice, none an exact match; the curation map
    is keyed by the abbreviation. *)
Definition ex_E4 : Engine :=
  mkEngine "mt" "disease" ["LC"; "abc"; "LC"] ["Lung Cancer"] [("LC", "lung carcinoma")] 1 "lm"
           (Some "rag") (9 # 10) "test".

(** The constructor on a corpus with a repeated entry, with or without a
    stage-3 strategy and corpus table. *)
Definition ex_init (s3 : option string) (cdf : option Table) : Res (Engine * option Table) :=
  init ex_float_str "mt" "disease" ["Lung Cancer"; "XYZ"]
       ["lung adenocarcinoma"; "unknown"; "lung adenocarcinoma"] [] 1 "lm" s3 (9 # 10)
       (Some "test") cdf.

Definition ex_init_ok (s3 : option string) (cdf : option Table) : Engine * option Table :=
  match ex_init s3 cdf with Ok p => p | Err _ => (ex_engine [] None, None) end.

Definition ex_normalized : Table := res_table (normalize_df ex_float_str obo_table true).


(** * Proofs *)

(** ** The error monad *)

Lemma bind_Ok {A B : Type} (m : Res A) (k : A -> Res B) b :
  bind m k = Ok b -> exists a, m = Ok a /\ k a = Ok b.
Proof. destruct m; simpl; [eauto | discriminate]. Qed.

Ltac inv_bind H :=
  let a := fresh "a" in let Hm := fresh "Hm" in let Hk := fresh "Hk" in
  apply bind_Ok in H; destruct H as [a [Hm Hk]].

(** ** Dicts *)

Section DictFacts.
Context {V : Type}.

Lemma find_app_key (d1 d2 : Dict V) k :
  find (fun p => String.eqb (fst p) k) (d1 ++ d2) =
  match find (fun p => String.eqb (fst p) k) d1 with
  | Some p => Some p
  | None => find (fun p => String.eqb (fst p) k) d2
  end.
Proof.
  induction d1 as [|p d1 IH]; simpl; [reflexivity|].
  destruct (String.eqb (fst p) k); [reflexivity | exact IH].
Qed.

Lemma find_map_key (f : string * V -> string * V) (d : Dict V) k :
  (forall p, fst (f p) = fst p) ->
  find (fun p => String.eqb (fst p) k) (map f d) =
  option_map f (find (fun p => String.eqb (fst p) k) d).
Proof.
  intros Hf; induction d as [|p d IH]; simpl; [reflexivity|].
  rewrite Hf. destruct (String.eqb (fst p) k); [reflexivity | exact IH].
Qed.

Lemma find_key_none (d : Dict V) k :
  find (fun p => String.eqb (fst p) k) d = None <-> dmem d k = false.
Proof.
  unfold dmem; induction d as [|p d IH]; simpl; [tauto|].
  destruct (String.eqb (fst p) k); simpl; [split; discriminate | exact IH].
Qed.

Lemma find_key_some (d : Dict V) k p :
  find (fun p => String.eqb (fst p) k) d = Some p -> fst p = k.
Proof. intros H; apply find_some in H; apply String.eqb_eq, H. Qed.

Lemma dmem_dget (d : Dict V) k :
  dmem d k = match dget d k with Some _ => true | None => false end.
Proof.
  unfold dget. destruct (find _ d) as [[a b]|] eqn:Hf.
  - destruct (dmem d k) eqn:Hm; [reflexivity|].
    apply find_key_none in Hm. congruence.
  - apply find_key_none in Hf. exact Hf.
Qed.

Lemma dget_dset (d : Dict V) k v k' :
  dget (dset d k v) k' = if String.eqb k k' then Some v else dget d k'.
Proof.
  unfold dget, dset. destruct (dmem d k) eqn:Hm.
  - rewrite find_map_key
      by (intros p; destruct (String.eqb (fst p) k) eqn:E;
          [apply String.eqb_eq in E; simpl; congruence | reflexivity]).
    destruct (find (fun p => String.eqb (fst p) k') d) as [[a b]|] eqn:Hf; simpl.
    + apply find_key_some in Hf; simpl in Hf; subst a.
      destruct (String.eqb k' k) eqn:E1, (String.eqb k k') eqn:E2;
        try reflexivity; rewrite String.eqb_sym in E1; congruence.
    + destruct (String.eqb k k') eqn:E; [|reflexivity].
      apply String.eqb_eq in E; subst k'.
      apply find_key_none in Hf. congruence.
  - rewrite find_app_key.
    destruct (String.eqb k k') eqn:E.
    + apply String.eqb_eq in E; subst k'.
      apply find_key_none in Hm. rewrite Hm. simpl. rewrite String.eqb_refl. reflexivity.
    + destruct (find (fun p => String.eqb (fst p) k') d) as [[a b]|]; [reflexivity|].
      simpl. rewrite E. reflexivity.
Qed.

Lemma dmem_dset (d : Dict V) k v k' :
  dmem (dset d k v) k' = String.eqb k k' || dmem d k'.
Proof.
  rewrite !dmem_dget, dget_dset. destruct (String.eqb k k'); reflexivity.
Qed.

(** Inserting [f q] for every [q] of a list: the keys are the list's. *)
Lemma dget_fold_dset (f : string -> V) (qs : list string) (d0 : Dict V) k :
  dget (fold_left (fun d q => dset d q (f q)) qs d0) k =
  if mem_str k qs then Some (f k) else dget d0 k.
Proof.
  revert d0; induction qs as [|q qs IH]; intros d0; simpl; [reflexivity|].
  rewrite IH, dget_dset.
  destruct (String.eqb k q) eqn:E1; simpl.
  - apply String.eqb_eq in E1; subst q. rewrite String.eqb_refl.
    destruct (mem_str k qs); reflexivity.
  - rewrite String.eqb_sym, E1. reflexivity.
Qed.

End DictFacts.

(** ** Rows *)

Lemma rget_rset (r : Row) c v c' :
  rget (rset r c v) c' = if String.eqb c c' then v else rget r c'.
Proof.
  unfold rget, rset. rewrite dget_dset. destruct (String.eqb c c'); reflexivity.
Qed.

Lemma rget_rset_same (r : Row) c v : rget (rset r c v) c = v.
Proof. rewrite rget_rset, String.eqb_refl. reflexivity. Qed.

Lemma rget_rset_other (r : Row) c v c' : c <> c' -> rget (rset r c v) c' = rget r c'.
Proof.
  intros H. rewrite rget_rset. destruct (String.eqb c c') eqn:E; [|reflexivity].
  apply String.eqb_eq in E. contradiction.
Qed.

Lemma rget_app (r1 r2 : Row) c :
  rget (r1 ++ r2) c = if has_key r1 c then rget r1 c else rget r2 c.
Proof.
  unfold rget, has_key, dget. rewrite find_app_key.
  destruct (find (fun p => String.eqb (fst p) c) r1) as [[a b]|] eqn:Hf.
  - destruct (dmem r1 c) eqn:Hm; [reflexivity|].
    apply find_key_none in Hm. congruence.
  - apply find_key_none in Hf. rewrite Hf. reflexivity.
Qed.

Lemma has_key_In (r : Row) c : has_key r c = true <-> In c (map fst r).
Proof.
  unfold has_key, dmem. rewrite existsb_exists. split.
  - intros [p [Hp E]]. apply String.eqb_eq in E. subst c. apply in_map, Hp.
  - intros Hc. apply in_map_iff in Hc. destruct Hc as [p [E Hp]].
    exists p. split; [exact Hp|]. apply String.eqb_eq, E.
Qed.

Lemma mem_str_In x l : mem_str x l = true <-> In x l.
Proof.
  unfold mem_str. rewrite existsb_exists. split.
  - intros [y [Hy E]]. apply String.eqb_eq in E. subst. exact Hy.
  - intros H. exists x. split; [exact H | apply String.eqb_refl].
Qed.

(** ** numpy's string order, [np.unique] and [np.setdiff1d] *)

Definition str_le (a b : string) : Prop := str_leb a b = true.

Lemma str_compare_Gt a b :
  String_as_OT.compare a b = Gt -> String_as_OT.compare b a = Lt.
Proof.
  intros H. pose proof (String_as_OT.compare_spec a b) as S.
  rewrite H in S. inversion S. assumption.
Qed.

Lemma str_compare_Eq a b : String_as_OT.compare a b = Eq -> a = b.
Proof.
  intros H. pose proof (String_as_OT.compare_spec a b) as S.
  rewrite H in S. inversion S. assumption.
Qed.

Lemma str_leb_total a b : str_leb a b = false -> str_leb b a = true.
Proof.
  unfold str_leb. destruct (String_as_OT.compare a b) eqn:E; try discriminate.
  intros _. rewrite (str_compare_Gt _ _ E). reflexivity.
Qed.

Lemma str_le_lt a b : str_le a b -> a <> b -> str_lt a b.
Proof.
  unfold str_le, str_leb, str_lt. destruct (String_as_OT.compare a b) eqn:E;
    intros H1 H2; try discriminate; try reflexivity.
  apply str_compare_Eq in E. contradiction.
Qed.

Lemma str_lt_trans a b c : str_lt a b -> str_lt b c -> str_lt a c.
Proof.
  apply (@StrictOrder_Transitive _ _ String_as_OT.lt_strorder).
Qed.

Lemma str_lt_irrefl a : ~ str_lt a a.
Proof.
  apply (@StrictOrder_Irreflexive _ _ String_as_OT.lt_strorder).
Qed.

Lemma insert_sorted_In x y l : In x (insert_sorted y l) <-> y = x \/ In x l.
Proof.
  induction l as [|z l IH]; simpl; [tauto|].
  destruct (str_leb y z); simpl; [tauto|]. rewrite IH. tauto.
Qed.

Lemma sort_strings_In x l : In x (sort_strings l) <-> In x l.
Proof.
  induction l as [|y l IH]; simpl; [tauto|]. rewrite insert_sorted_In, IH.
  split; intros [H|H]; auto.
Qed.

Lemma insert_sorted_HdRel a x l :
  HdRel str_le a l -> str_le a x -> HdRel str_le a (insert_sorted x l).
Proof.
  destruct l as [|b l]; simpl; intros H Hx; [constructor; exact Hx|].
  destruct (str_leb x b); constructor; [exact Hx|]. inversion H; assumption.
Qed.

Lemma insert_sorted_Sorted x l : Sorted str_le l -> Sorted str_le (insert_sorted x l).
Proof.
  induction l as [|y l IH]; simpl; intros H; [repeat constructor|].
  destruct (str_leb x y) eqn:E.
  - constructor; [exact H | constructor; exact E].
  - inversion H; subst. constructor; [apply IH; assumption|].
    apply insert_sorted_HdRel; [assumption | apply str_leb_total, E].
Qed.

Lemma sort_strings_Sorted l : Sorted str_le (sort_strings l).
Proof.
  induction l as [|y l IH]; simpl; [constructor | apply insert_sorted_Sorted, IH].
Qed.

Lemma dedup_sorted_head y l : exists t, dedup_sorted (y :: l) = y :: t.
Proof.
  revert y; induction l as [|z l IH]; intros y; simpl; [eauto|].
  destruct (String.eqb y z) eqn:E; [|eauto].
  apply String.eqb_eq in E; subst z. apply IH.
Qed.

Lemma dedup_sorted_In x l : In x (dedup_sorted l) <-> In x l.
Proof.
  induction l as [|y [|z l] IH]; [simpl; tauto | simpl; tauto|].
  change (dedup_sorted (y :: z :: l))
    with (if String.eqb y z then dedup_sorted (z :: l) else y :: dedup_sorted (z :: l)).
  destruct (String.eqb y z) eqn:E.
  - apply String.eqb_eq in E; subst z. rewrite IH. simpl. tauto.
  - simpl. rewrite IH. simpl. tauto.
Qed.

Lemma dedup_sorted_Sorted l : Sorted str_le l -> Sorted str_lt (dedup_sorted l).
Proof.
  induction l as [|y [|z l] IH]; intros H; [constructor | repeat constructor|].
  change (dedup_sorted (y :: z :: l))
    with (if String.eqb y z then dedup_sorted (z :: l) else y :: dedup_sorted (z :: l)).
  inversion H as [|? ? Hs Hhd]; subst.
  destruct (String.eqb y z) eqn:E; [apply IH, Hs|].
  destruct (dedup_sorted_head z l) as [t Ht]. rewrite Ht in *.
  constructor; [apply IH, Hs|]. constructor.
  apply str_le_lt; [inversion Hhd; assumption|].
  intros Hyz; subst z. rewrite String.eqb_refl in E. discriminate.
Qed.

Lemma np_unique_StronglySorted l : StronglySorted str_lt (np_unique l).
Proof.
  apply Sorted_StronglySorted; [intros a b c; apply str_lt_trans|].
  apply dedup_sorted_Sorted, sort_strings_Sorted.
Qed.

Lemma np_unique_In x l : In x (np_unique l) <-> In x (map np_str l).
Proof. unfold np_unique. rewrite dedup_sorted_In, sort_strings_In. tauto. Qed.

Lemma StronglySorted_filter {A : Type} (R : A -> A -> Prop) (f : A -> bool) l :
  StronglySorted R l -> StronglySorted R (filter f l).
Proof.
  induction l as [|a l IH]; simpl; intros H; [constructor|].
  inversion H as [|? ? Hs Hf]; subst.
  destruct (f a); [|apply IH, Hs].
  constructor; [apply IH, Hs|].
  rewrite Forall_forall in *. intros x Hx. apply filter_In in Hx. apply Hf, Hx.
Qed.

Lemma StronglySorted_lt_NoDup l : StronglySorted str_lt l -> NoDup l.
Proof.
  induction l as [|a l IH]; intros H; [constructor|].
  inversion H as [|? ? Hs Hf]; subst. constructor; [|apply IH, Hs].
  intros Ha. rewrite Forall_forall in Hf. apply (str_lt_irrefl a), Hf, Ha.
Qed.

Lemma setdiff1d_In x a b :
  In x (setdiff1d a b) <-> In x (map np_str a) /\ ~ In x (map np_str b).
Proof.
  unfold setdiff1d; cbv zeta. rewrite filter_In, np_unique_In.
  destruct (mem_str x (np_unique b)) eqn:E; simpl.
  - apply mem_str_In in E. rewrite np_unique_In in E.
    split; [intros [_ H]; discriminate | tauto].
  - split; [intros [H _]; split; [exact H|] | intros [H _]; split; [exact H | reflexivity]].
    intros Hb. apply np_unique_In, mem_str_In in Hb. congruence.
Qed.

Lemma setdiff1d_StronglySorted a b : StronglySorted str_lt (setdiff1d a b).
Proof. apply StronglySorted_filter, np_unique_StronglySorted. Qed.

(** ** Stage 1 *)

Lemma exact_matching_In e q :
  In q (exact_matching e) <-> In q (e_query e) /\ is_exact e q = true.
Proof. apply filter_In. Qed.



(** A list of strings none of which ends in a NUL, checked by evaluation. *)
Lemma np_str_fixed_all l :
  forallb (fun q => String.eqb (np_str q) q) l = true -> forall q, In q l -> np_str q = q.
Proof.
  intros H q Hq. rewrite forallb_forall in H. apply String.eqb_eq, H, Hq.
Qed.

(** The remaining queries are the numpy forms of the queries that are not
    the numpy form of an exact match. *)
Lemma non_exact_In e q :
  In q (non_exact_matches_ls e) <->
  In q (map np_str (e_query e)) /\ ~ In q (map np_str (exact_matching e)).
Proof. apply setdiff1d_In. Qed.


(** When no query ends in a NUL, the remaining queries are the queries
    that are not exact matches. *)
Lemma non_exact_In_plain e q :
  (forall q0, In q0 (e_query e) -> np_str q0 = q0) ->
  In q (non_exact_matches_ls e) <-> In q (e_query e) /\ is_exact e q = false.
Proof.
  intros Hn. rewrite non_exact_In.
  rewrite (map_ext_in np_str (fun x => x) (e_query e)) by exact Hn.
  rewrite (map_ext_in np_str (fun x => x) (exact_matching e))
    by (intros a Ha; apply Hn, exact_matching_In, Ha).
  rewrite !map_id, exact_matching_In.
  destruct (is_exact e q); split; intros H.
  - exfalso. destruct H as [H1 H2]. apply H2. split; [exact H1 | reflexivity].
  - destruct H; discriminate.
  - split; [apply H | reflexivity].
  - split; [apply H|]. intros [_ H']; discriminate.
Qed.

(** Column names [top{i}_match] and [top{i}_score]. *)

Lemma digits_aux_digits fuel n acc :
  (forall a, In a (list_ascii_of_string acc) -> is_digit a = true) ->
  forall a, In a (list_ascii_of_string (digits_aux fuel n acc)) -> is_digit a = true.
Proof.
  revert n acc; induction fuel as [|f IH]; intros n acc Hacc; simpl; [exact Hacc|].
  assert (Hd : is_digit (ascii_of_nat (48 + n mod 10)) = true).
  { unfold is_digit. rewrite Ascii.nat_ascii_embedding.
    - pose proof (Nat.mod_upper_bound n 10). apply andb_true_intro; split;
        apply Nat.leb_le; lia.
    - pose proof (Nat.mod_upper_bound n 10). lia. }
  assert (Hacc' : forall a, In a (list_ascii_of_string
                    (String (ascii_of_nat (48 + n mod 10)) acc)) -> is_digit a = true).
  { simpl. intros a [Ha|Ha]; [subst; exact Hd | apply Hacc, Ha]. }
  destruct (n <? 10); [exact Hacc' | apply IH, Hacc'].
Qed.

Lemma nat_str_digits n a :
  In a (list_ascii_of_string (nat_str n)) -> is_digit a = true.
Proof. apply digits_aux_digits. simpl. tauto. Qed.

Lemma digits_underscore a b x y :
  (forall c, In c (list_ascii_of_string a) -> is_digit c = true) ->
  (forall c, In c (list_ascii_of_string b) -> is_digit c = true) ->
  (a ++ String "_" x = b ++ String "_" y)%string -> x = y.
Proof.
  revert b; induction a as [|c a IH]; intros b Ha Hb E; destruct b as [|d b];
    simpl in E; injection E; intros.
  - assumption.
  - subst d. specialize (Hb "_"%char (or_introl eq_refl)). discriminate Hb.
  - subst c. specialize (Ha "_"%char (or_introl eq_refl)). discriminate Ha.
  - apply (IH b); [intros c' H'; apply Ha; right; exact H'
                  | intros c' H'; apply Hb; right; exact H' | assumption].
Qed.

Lemma top_match_score i j : top_match i <> top_score j.
Proof.
  unfold top_match, top_score. simpl. intros E. injection E as E.
  apply digits_underscore in E; [discriminate E | apply nat_str_digits | apply nat_str_digits].
Qed.

Lemma top_match_base i :
  top_match i <> "original_value" /\ top_match i <> "curated_ontology" /\
  top_match i <> "match_level" /\ top_match i <> "stage".
Proof. repeat split; unfold top_match; simpl; discriminate. Qed.

Lemma top_score_base i :
  top_score i <> "original_value" /\ top_score i <> "curated_ontology" /\
  top_score i <> "match_level" /\ top_score i <> "stage".
Proof. repeat split; unfold top_score; simpl; discriminate. Qed.

(** The [top{i}] loop of lines 260-262, one row at a time. *)
Lemma fold_top_rows (l : list nat) (t : Table) :
  trows (fold_left
           (fun t i =>
              let t' := set_col t (top_match i) (fun r => rget r "curated_ontology") in
              set_col t' (top_score i) (fun _ => CFloat 1)) l t)
  = map (fun r => fold_left
                    (fun r i => rset (rset r (top_match i) (rget r "curated_ontology"))
                                     (top_score i) (CFloat 1)) l r) (trows t).
Proof.
  revert t; induction l as [|i l IH]; intros t; simpl.
  - symmetry; apply map_id.
  - rewrite IH. simpl. rewrite !map_map. reflexivity.
Qed.

Lemma fold_top_other l r c :
  (forall i, top_match i <> c) -> (forall i, top_score i <> c) ->
  rget (fold_left top_row_step l r) c = rget r c.
Proof.
  intros H1 H2. revert r; induction l as [|i l IH]; intros r; simpl; [reflexivity|].
  rewrite IH. unfold top_row_step. rewrite !rget_rset_other; auto.
Qed.

Lemma cur_not_top : (forall i, top_match i <> "curated_ontology") /\
                    (forall i, top_score i <> "curated_ontology").
Proof. split; intros i; [apply (top_match_base i) | apply (top_score_base i)]. Qed.

Lemma fold_top_score_keep l r i :
  rget r (top_score i) = CFloat 1 -> rget (fold_left top_row_step l r) (top_score i) = CFloat 1.
Proof.
  revert r; induction l as [|j l IH]; intros r H; simpl; [exact H|].
  apply IH. unfold top_row_step. rewrite rget_rset.
  destruct (String.eqb (top_score j) (top_score i)); [reflexivity|].
  rewrite rget_rset_other; [exact H | apply top_match_score].
Qed.

Lemma fold_top_match_keep l r i :
  rget r (top_match i) = rget r "curated_ontology" ->
  rget (fold_left top_row_step l r) (top_match i) = rget r "curated_ontology".
Proof.
  revert r; induction l as [|j l IH]; intros r H; simpl; [exact H|].
  assert (Hc : rget (top_row_step r j) "curated_ontology" = rget r "curated_ontology").
  { unfold top_row_step. rewrite !rget_rset_other; [reflexivity | apply cur_not_top | apply cur_not_top]. }
  rewrite <- Hc. apply IH. rewrite Hc. unfold top_row_step.
  rewrite rget_rset_other by (intros E; symmetry in E; apply (top_match_score i j), E).
  rewrite rget_rset. destruct (String.eqb (top_match j) (top_match i)); [reflexivity | exact H].
Qed.

Lemma fold_top_in l r i :
  In i l ->
  rget (fold_left top_row_step l r) (top_score i) = CFloat 1 /\
  rget (fold_left top_row_step l r) (top_match i) = rget r "curated_ontology".
Proof.
  revert r; induction l as [|j l IH]; intros r Hi; [destruct Hi|]. simpl.
  assert (Hc : rget (top_row_step r j) "curated_ontology" = rget r "curated_ontology").
  { unfold top_row_step. rewrite !rget_rset_other; [reflexivity | apply cur_not_top | apply cur_not_top]. }
  destruct Hi as [Hi|Hi].
  - subst j. split.
    + apply fold_top_score_keep. unfold top_row_step. apply rget_rset_same.
    + rewrite <- Hc. apply fold_top_match_keep. unfold top_row_step.
      rewrite rget_rset_other by (intros E; symmetry in E; apply (top_match_score i i), E).
      rewrite rget_rset_same. rewrite !rget_rset_other;
        [reflexivity | apply cur_not_top | apply cur_not_top].
    - rewrite <- Hc. apply IH, Hi.
Qed.

(** Every stage-1 row, and the queries they carry. *)
Lemma exact_df_rows e :
  trows (exact_df e) =
  map (fun q => fold_left top_row_step (seq 1 (e_topk e))
                  (rset (rset (rset [("original_value", CStr q)] "curated_ontology"
                                 (curated_or_self e q)) "match_level" (CInt 1))
                        "stage" (CInt 1)))
      (exact_matching e).
Proof.
  unfold exact_df. rewrite fold_top_rows. simpl. rewrite !map_map. reflexivity.
Qed.


Lemma exact_row_built e q :
  exact_row_ok e q
    (fold_left top_row_step (seq 1 (e_topk e))
       (rset (rset (rset [("original_value", CStr q)] "curated_ontology"
                      (curated_or_self e q)) "match_level" (CInt 1)) "stage" (CInt 1))).
Proof.
  unfold exact_row_ok.
  repeat split;
    try (rewrite fold_top_other;
         [ | intros i; apply (top_match_base i) | intros i; apply (top_score_base i)];
         rewrite ?rget_rset_same, ?rget_rset_other by discriminate; reflexivity).
  - apply fold_top_in. apply in_seq. lia.
  - destruct (fold_top_in (seq 1 (e_topk e))
      (rset (rset (rset [("original_value", CStr q)] "curated_ontology"
                     (curated_or_self e q)) "match_level" (CInt 1)) "stage" (CInt 1)) i)
      as [_ H2]; [apply in_seq; lia|].
    rewrite H2. rewrite !rget_rset_other by discriminate. apply rget_rset_same.
Qed.

Lemma exact_df_In e r :
  In r (trows (exact_df e)) -> exists q, In q (exact_matching e) /\ exact_row_ok e q r.
Proof.
  rewrite exact_df_rows, in_map_iff. intros [q [Hr Hq]]. subst r.
  exists q. split; [exact Hq | apply exact_row_built].
Qed.

Lemma exact_df_has e q :
  In q (exact_matching e) -> exists r, In r (trows (exact_df e)) /\ exact_row_ok e q r.
Proof.
  intros Hq. eexists. split; [rewrite exact_df_rows; apply in_map, Hq | apply exact_row_built].
Qed.

Lemma exact_df_originals e : table_originals (exact_df e) = map CStr (exact_matching e).
Proof.
  unfold table_originals. rewrite exact_df_rows, map_map. apply map_ext.
  intros q. apply (exact_row_built e q).
Qed.

(** ** The abbreviation resolver *)

Lemma dget_dict_of_strip rows d0 c :
  dget (fold_left (fun d p => dset d (fst p) (snd p))
          (map (fun p => (strip (fst p), strip (snd p))) rows) d0) c =
  fold_left (fun acc p => if String.eqb (strip (fst p)) c then Some (strip (snd p)) else acc)
            rows (dget d0 c).
Proof.
  revert d0; induction rows as [|p rows IH]; intros d0; simpl; [reflexivity|].
  rewrite IH, dget_dset. reflexivity.
Qed.

Lemma resolver_Ok abbr qs d :
  map_shortname_to_fullname abbr qs = Ok d ->
  forall k, dget d k = if mem_str k qs then Some (expansion abbr k) else None.
Proof.
  intros H k. unfold map_shortname_to_fullname in H.
  destruct abbr as [rows| |err]; simpl in H; [| |discriminate]; injection H as <-;
    cbv zeta; rewrite dget_fold_dset; destruct (mem_str k qs); try reflexivity.
  unfold expansion, dict_of_list. rewrite dget_dict_of_strip. reflexivity.
Qed.

Lemma resolver_succeeds abbr qs :
  (forall err, abbr <> AbbrBroken err) -> exists d, map_shortname_to_fullname abbr qs = Ok d.
Proof.
  intros H. unfold map_shortname_to_fullname.
  destruct abbr as [rows| |err]; simpl; [eauto | eauto | exfalso; apply (H err); reflexivity].
Qed.

(** ** One matching stage *)

Lemma mapM_length {A B : Type} (f : A -> Res B) l l' :
  mapM f l = Ok l' -> List.length l' = List.length l.
Proof.
  revert l'; induction l as [|x l IH]; intros l' H; simpl in H.
  - injection H as <-. reflexivity.
  - inv_bind H. inv_bind Hk. injection Hk0 as <-. simpl. f_equal. apply IH, Hm0.
Qed.

Lemma mapM_succeeds {A B : Type} (f : A -> Res B) l :
  (forall x, In x l -> exists y, f x = Ok y) -> exists l', mapM f l = Ok l'.
Proof.
  induction l as [|x l IH]; intros H; simpl; [eauto|].
  destruct (H x (or_introl eq_refl)) as [y Hy]. rewrite Hy. simpl.
  destruct IH as [l' Hl']; [intros z Hz; apply H; right; exact Hz|].
  rewrite Hl'. simpl. eauto.
Qed.

Lemma mapM_as_str cs ss : mapM as_str cs = Ok ss -> cs = map CStr ss.
Proof.
  revert ss; induction cs as [|c cs IH]; intros ss H; simpl in H.
  - injection H as <-. reflexivity.
  - inv_bind H. inv_bind Hk. injection Hk0 as <-.
    destruct c; simpl in Hm; try discriminate. injection Hm as <-.
    simpl. f_equal. apply IH, Hm0.
Qed.

Lemma cura_fold_succeeds (m : Dict string) (l : Dict string) d :
  exists d',
    fold_left
      (fun acc kv =>
         d <- acc ;;
         if dmem m (fst kv)
         then (k' <- dindex m (fst kv) ;; Ok (dset d k' (snd kv)))
         else Ok d) l (Ok d) = Ok d'.
Proof.
  revert d; induction l as [|kv l IH]; intros d; simpl; [eauto|].
  destruct (dmem m (fst kv)) eqn:Hm.
  - rewrite dmem_dget in Hm. unfold dindex.
    destruct (dget m (fst kv)) as [k'|]; [simpl; apply IH | discriminate].
  - apply IH.
Qed.

Lemma stage_prepare_succeeds e abbr qs :
  (forall err, abbr <> AbbrBroken err) ->
  exists rdf uq ucm, stage_prepare e abbr qs = Ok (rdf, uq, ucm).
Proof.
  intros Habbr. destruct (resolver_succeeds abbr qs Habbr) as [d Hd].
  unfold stage_prepare. rewrite Hd. simpl.
  destruct (mapM_succeeds (dindex d) qs) as [us Hus].
  { intros q Hq. unfold dindex. rewrite (resolver_Ok _ _ _ Hd q).
    apply mem_str_In in Hq. rewrite Hq. eauto. }
  rewrite Hus. simpl.
  destruct (cura_fold_succeeds d (e_cura_map e) []) as [d' Hd']. rewrite Hd'. simpl. eauto.
Qed.

Lemma stage_prepare_Ok e abbr qs rdf uq ucm :
  stage_prepare e abbr qs = Ok (rdf, uq, ucm) ->
  trows rdf = map (fun p => [("original_value", CStr (fst p)); ("updated_value", CStr (snd p))])
                  (combine qs uq) /\
  tcols rdf = ["original_value"; "updated_value"] /\
  List.length uq = List.length qs.
Proof.
  intros H. unfold stage_prepare in H. inv_bind H. inv_bind Hk. inv_bind Hk0.
  injection Hk as <- <- <-. split; [reflexivity | split; [reflexivity|]].
  apply (mapM_length _ _ _ Hm0).
Qed.

(** The left join. *)

Lemma merge_left_Ok l r key m :
  merge_left l r key = Ok m ->
  let rcols := filter (fun c => negb (String.eqb c key)) (tcols r) in
  tcols m = tcols l ++ rcols /\
  trows m = flat_map (left_join_row (trows r) key rcols) (trows l).
Proof.
  unfold merge_left. destruct (negb (mem_str key (tcols r))); [discriminate|].
  destruct (2 <=? count_occ string_dec (tcols r) key); [discriminate|]. cbv zeta.
  destruct (trows l) as [|lr ls] eqn:El;
    [|destruct (col_dtype (map (fun rr => rget rr key) (trows r))); try discriminate];
    intros H; injection H as <-; rewrite ?El; split; reflexivity.
Qed.

Lemma left_join_row_prefix rrows key rcols lr j :
  In j (left_join_row rrows key rcols lr) -> exists x, j = lr ++ x.
Proof.
  unfold left_join_row. destruct (filter _ rrows) as [|m ms].
  - intros [H|[]]. subst j. eauto.
  - intros H. apply in_map_iff in H. destruct H as [rr [H _]]. subst j. eauto.
Qed.

Lemma rget_all_null (cs : list string) c : rget (map (fun c => (c, CNull)) cs) c = CNull.
Proof.
  unfold rget, dget. induction cs as [|c' cs IH]; simpl; [reflexivity|].
  destruct (String.eqb c' c); [reflexivity | exact IH].
Qed.

Lemma left_join_row_dropped rrows key rcols lr :
  (forall rr, In rr rrows -> rget rr key <> rget lr key) ->
  left_join_row rrows key rcols lr = [lr ++ map (fun c => (c, CNull)) rcols].
Proof.
  intros H. unfold left_join_row.
  destruct (filter _ rrows) as [|m ms] eqn:Ef; [reflexivity|].
  exfalso. assert (Hm : In m (filter (fun rr => cell_eqb (rget rr key) (rget lr key)) rrows))
    by (rewrite Ef; left; reflexivity).
  apply filter_In in Hm. destruct Hm as [Hm E]. unfold cell_eqb in E.
  destruct (cell_eq_dec (rget m key) (rget lr key)) as [E'|]; [|discriminate].
  apply (H m Hm E').
Qed.

Lemma left_join_row_nonempty rrows key rcols lr :
  exists j, In j (left_join_row rrows key rcols lr).
Proof.
  unfold left_join_row. destruct (filter _ rrows) as [|m ms].
  - eexists; left; reflexivity.
  - eexists; left; reflexivity.
Qed.

Lemma filter_cell_NoDup {A : Type} (g : A -> Cell) (l : list A) k :
  NoDup (map g l) -> List.length (filter (fun x => cell_eqb (g x) k) l) <= 1.
Proof.
  induction l as [|x l IH]; simpl; intros H; [lia|].
  inversion H as [|? ? Hx Hnd]; subst.
  destruct (cell_eqb (g x) k) eqn:E; [|apply IH, Hnd].
  unfold cell_eqb in E. destruct (cell_eq_dec (g x) k) as [E'|]; [|discriminate].
  destruct (filter (fun x => cell_eqb (g x) k) l) as [|y ys] eqn:Ef; simpl; [lia|].
  exfalso. assert (Hy : In y (filter (fun x => cell_eqb (g x) k) l)) by (rewrite Ef; left; reflexivity).
  apply filter_In in Hy. destruct Hy as [Hy Ey]. unfold cell_eqb in Ey.
  destruct (cell_eq_dec (g y) k) as [Ey'|]; [|discriminate].
  apply Hx. rewrite E', <- Ey'. apply in_map, Hy.
Qed.

Lemma left_join_row_single rrows key rcols lr :
  NoDup (map (fun rr => rget rr key) rrows) ->
  exists x, left_join_row rrows key rcols lr = [lr ++ x].
Proof.
  intros H. pose proof (filter_cell_NoDup (fun rr => rget rr key) rrows (rget lr key) H) as Hl.
  unfold left_join_row. destruct (filter _ rrows) as [|m [|m' ms]]; simpl in *.
  - eauto.
  - eauto.
  - lia.
Qed.

Lemma set_col_cols t c f x : In x (tcols (set_col t c f)) <-> In x (tcols t) \/ x = c.
Proof.
  unfold set_col; simpl. destruct (mem_str c (tcols t)) eqn:E.
  - apply mem_str_In in E. split; [tauto|]. intros [H|H]; [exact H | subst; exact E].
  - rewrite in_app_iff. simpl. split; intros [H|H]; auto; destruct H; auto; contradiction.
Qed.

Lemma in_combine_exists {A B : Type} (l1 : list A) (l2 : list B) x :
  List.length l2 = List.length l1 -> In x l1 -> exists y, In (x, y) (combine l1 l2).
Proof.
  revert l2; induction l1 as [|a l1 IH]; intros l2 Hl Hx; [destruct Hx|].
  destruct l2 as [|b l2]; simpl in Hl; [discriminate|]. simpl.
  destruct Hx as [Hx|Hx]; [subst; eauto|].
  destruct (IH l2 ltac:(lia) Hx) as [y Hy]. eauto.
Qed.

Lemma map_fst_combine {A B : Type} (l1 : list A) (l2 : list B) :
  List.length l2 = List.length l1 -> map fst (combine l1 l2) = l1.
Proof.
  revert l2; induction l1 as [|a l1 IH]; intros l2 Hl; [reflexivity|].
  destruct l2 as [|b l2]; simpl in Hl; [discriminate|]. simpl. f_equal. apply IH. lia.
Qed.

Lemma stage_table_Ok e abbr be strat qs n t :
  stage_table e abbr be strat qs n = Ok t ->
  exists rdf uq ucm B merged,
    stage_prepare e abbr qs = Ok (rdf, uq, ucm) /\
    run_backend e be strat uq ucm = Ok B /\
    merge_left rdf (rename_original B) "updated_value" = Ok merged /\
    t = set_col (set_col merged "curated_ontology" (curated_or_not_found e)) "stage"
          (fun _ => CInt n).
Proof.
  unfold stage_table. intros H. inv_bind H. destruct a as [[rdf uq] ucm].
  cbv beta iota in Hk. inv_bind Hk. inv_bind Hk0. injection Hk as <-.
  exists rdf, uq, ucm, a, a0. auto.
Qed.

Lemma run_backend_Ok e be strat uq ucm B :
  run_backend e be strat uq ucm = Ok B ->
  B = be strat uq (e_corpus e) (e_topk e) ucm (e_test_or_prod e).
Proof.
  unfold run_backend. destruct (mem_str strat _); [|discriminate]. intros H; injection H as <-. reflexivity.
Qed.

Lemma stage_fin_rget e n j c :
  c <> "curated_ontology" -> c <> "stage" ->
  rget (rset (rset j "curated_ontology" (curated_or_not_found e j)) "stage" (CInt n)) c = rget j c.
Proof. intros H1 H2. rewrite !rget_rset_other; auto. Qed.

Lemma stage_fin_stage e n j :
  rget (rset (rset j "curated_ontology" (curated_or_not_found e j)) "stage" (CInt n)) "stage" = CInt n.
Proof. apply rget_rset_same. Qed.

Lemma replace_row_rget o u x c :
  c <> "original_value" -> c <> "updated_value" ->
  rget ([("original_value", CStr o); ("updated_value", CStr u)] ++ x) c = rget x c.
Proof.
  intros H1 H2. rewrite rget_app. unfold has_key, dmem. cbn [existsb fst].
  apply String.eqb_neq in H1, H2. rewrite String.eqb_sym in H1. rewrite String.eqb_sym in H2.
  rewrite H1, H2. reflexivity.
Qed.

(** Every row of a stage table belongs to a query of the stage. *)
Lemma stage_row_from e abbr be strat qs n t r :
  stage_table e abbr be strat qs n = Ok t -> In r (trows t) ->
  exists o, In o qs /\ rget r "original_value" = CStr o /\ rget r "stage" = CInt n.
Proof.
  intros H Hr. apply stage_table_Ok in H.
  destruct H as [rdf [uq [ucm [B [merged [Hp [Hb [Hm ->]]]]]]]].
  apply stage_prepare_Ok in Hp. destruct Hp as [Hrows [_ Hlen]].
  apply merge_left_Ok in Hm. destruct Hm as [_ Hmrows].
  simpl in Hr. rewrite map_map in Hr. apply in_map_iff in Hr. destruct Hr as [j [<- Hj]].
  rewrite Hmrows in Hj. apply in_flat_map in Hj. destruct Hj as [lr [Hlr Hj]].
  apply left_join_row_prefix in Hj. destruct Hj as [x ->].
  rewrite Hrows in Hlr. apply in_map_iff in Hlr. destruct Hlr as [[o u] [<- Hou]].
  exists o. split; [apply (in_combine_l _ _ _ _ Hou)|].
  split; [rewrite stage_fin_rget by discriminate; reflexivity | apply stage_fin_stage].
Qed.

(** Every query of a stage has a row; a query the backend dropped has null
    backend fields. *)
Lemma stage_row_cover e abbr be strat qs n t rdf uq ucm B :
  stage_prepare e abbr qs = Ok (rdf, uq, ucm) ->
  run_backend e be strat uq ucm = Ok B ->
  stage_table e abbr be strat qs n = Ok t ->
  forall o, In o qs ->
  exists r, In r (trows t) /\ rget r "original_value" = CStr o /\ rget r "stage" = CInt n /\
    ((forall rr, In rr (trows B) -> backend_key rr <> rget r "updated_value") ->
     forall c, c <> "original_value" -> c <> "updated_value" ->
       c <> "curated_ontology" -> c <> "stage" -> rget r c = CNull).
Proof.
  intros Hp Hb H o Ho. apply stage_table_Ok in H.
  destruct H as [rdf' [uq' [ucm' [B' [merged [Hp' [Hb' [Hm ->]]]]]]]].
  rewrite Hp in Hp'. injection Hp' as <- <- <-. rewrite Hb in Hb'. injection Hb' as <-.
  apply stage_prepare_Ok in Hp. destruct Hp as [Hrows [_ Hlen]].
  destruct (in_combine_exists qs uq o Hlen Ho) as [u Hou].
  set (lr := [("original_value", CStr o); ("updated_value", CStr u)]).
  assert (Hlr : In lr (trows rdf)).
  { rewrite Hrows. apply (in_map (fun p => [("original_value", CStr (fst p));
                                           ("updated_value", CStr (snd p))]) _ (o, u) Hou). }
  pose proof (merge_left_Ok _ _ _ _ Hm) as [_ Hmrows].
  set (rcols := filter (fun c => negb (String.eqb c "updated_value")) (tcols (rename_original B))) in *.
  destruct (left_join_row_nonempty (trows (rename_original B)) "updated_value" rcols lr) as [j Hj].
  exists (rset (rset j "curated_ontology" (curated_or_not_found e j)) "stage" (CInt n)).
  assert (Hjm : In j (trows merged)) by (rewrite Hmrows; apply in_flat_map; eauto).
  destruct (left_join_row_prefix _ _ _ _ _ Hj) as [x Hx].
  split; [simpl; rewrite map_map; apply in_map_iff; eauto|].
  split; [rewrite stage_fin_rget by discriminate; subst j; reflexivity|].
  split; [apply stage_fin_stage|].
  intros Hdrop c H1 H2 H3 H4. rewrite stage_fin_rget by assumption.
  rewrite stage_fin_rget in Hdrop by discriminate.
  assert (Hju : rget j "updated_value" = CStr u) by (subst j; reflexivity).
  rewrite Hju in Hdrop.
  rewrite left_join_row_dropped in Hj.
  - destruct Hj as [Hj|[]]. subst j. unfold lr. rewrite replace_row_rget by assumption.
    apply rget_all_null.
  - intros rr Hrr. simpl in Hrr. apply in_map_iff in Hrr. destruct Hrr as [rr0 [<- Hrr0]].
    apply (Hdrop rr0 Hrr0).
Qed.

Lemma join_originals_keyed rrows rcols (ps : list (string * string)) :
  NoDup (map (fun rr => rget rr "updated_value") rrows) ->
  map (fun r => rget r "original_value")
    (flat_map (left_join_row rrows "updated_value" rcols)
       (map (fun p => [("original_value", CStr (fst p)); ("updated_value", CStr (snd p))]) ps))
  = map (fun p => CStr (fst p)) ps.
Proof.
  intros Hnd. induction ps as [|[o u] ps IH]; [reflexivity|].
  cbn [map flat_map fst snd]. destruct (left_join_row_single rrows "updated_value" rcols
                     [("original_value", CStr o); ("updated_value", CStr u)] Hnd) as [x Hx].
  rewrite Hx. cbn [app map]. rewrite IH. reflexivity.
Qed.

(** With a keyed backend table every query of a stage has exactly one row. *)
Lemma stage_originals_keyed e abbr be strat qs n t rdf uq ucm B :
  stage_prepare e abbr qs = Ok (rdf, uq, ucm) ->
  run_backend e be strat uq ucm = Ok B ->
  keyed B ->
  stage_table e abbr be strat qs n = Ok t ->
  table_originals t = map CStr qs.
Proof.
  intros Hp Hb Hk H. apply stage_table_Ok in H.
  destruct H as [rdf' [uq' [ucm' [B' [merged [Hp' [Hb' [Hm ->]]]]]]]].
  rewrite Hp in Hp'. injection Hp' as <- <- <-. rewrite Hb in Hb'. injection Hb' as <-.
  apply stage_prepare_Ok in Hp. destruct Hp as [Hrows [_ Hlen]].
  pose proof (merge_left_Ok _ _ _ _ Hm) as [_ Hmrows].
  unfold table_originals, set_col. cbn [trows]. rewrite !map_map.
  rewrite (map_ext _ (fun r => rget r "original_value"))
    by (intros r; apply stage_fin_rget; discriminate).
  rewrite Hmrows, Hrows, join_originals_keyed.
  - rewrite <- (map_fst_combine qs uq Hlen) at 2. rewrite map_map. reflexivity.
  - unfold rename_original. cbn [trows]. rewrite map_map. exact Hk.
Qed.

Lemma stage_cols_top1 e abbr be strat qs n t rdf uq ucm B :
  stage_prepare e abbr qs = Ok (rdf, uq, ucm) ->
  run_backend e be strat uq ucm = Ok B ->
  stage_table e abbr be strat qs n = Ok t ->
  In "top1_score" (tcols t) -> In "top1_score" (tcols B).
Proof.
  intros Hp Hb H Ht. apply stage_table_Ok in H.
  destruct H as [rdf' [uq' [ucm' [B' [merged [Hp' [Hb' [Hm ->]]]]]]]].
  rewrite Hp in Hp'. injection Hp' as <- <- <-. rewrite Hb in Hb'. injection Hb' as <-.
  apply stage_prepare_Ok in Hp. destruct Hp as [_ [Hcols _]].
  pose proof (merge_left_Ok _ _ _ _ Hm) as [Hmcols _].
  apply set_col_cols in Ht. destruct Ht as [Ht|Ht]; [|discriminate].
  apply set_col_cols in Ht. destruct Ht as [Ht|Ht]; [|discriminate].
  rewrite Hmcols, Hcols in Ht. apply in_app_iff in Ht.
  destruct Ht as [Ht|Ht]; [simpl in Ht; destruct Ht as [Ht|[Ht|[]]]; discriminate|].
  apply filter_In in Ht. destruct Ht as [Ht _]. simpl in Ht.
  apply in_map_iff in Ht. destruct Ht as [c [Hc HcB]].
  unfold rename_col in Hc. destruct (String.eqb c "original_value"); [discriminate|].
  subst c. exact HcB.
Qed.

(** ** The paths of [run] *)

Lemma run_Ok parse_num e abbr be T :
  run parse_num e abbr be = Ok T ->
  (non_exact_matches_ls e = [] /\ T = exact_df e) \/
  (exists s2,
     non_exact_matches_ls e <> [] /\
     stage_table e abbr be (e_s2_strategy e) (non_exact_matches_ls e) 2 = Ok s2 /\
     ((T = concat_tables [exact_df e; s2] /\
       (e_s3_strategy e = None \/ mem_str "top1_score" (tcols s2) = false \/
        queries_for_s3 parse_num e s2 = [])) \/
      (exists s3 qs3 t3,
         e_s3_strategy e = Some s3 /\ mem_str "top1_score" (tcols s2) = true /\
         queries_for_s3 parse_num e s2 <> [] /\
         mapM as_str (queries_for_s3 parse_num e s2) = Ok qs3 /\
         stage_table e abbr be s3 qs3 3 = Ok t3 /\
         T = concat_tables [exact_df e; s2_res_filtered parse_num e s2; t3]))).
Proof.
  unfold run. destruct (non_exact_matches_ls e) as [|q rest] eqn:Hr.
  - intros H. injection H as <-. left. auto.
  - intros H. right. inv_bind H. exists a. split; [discriminate|]. split; [exact Hm|].
    destruct (e_s3_strategy e) as [s3|] eqn:Hs3.
    + destruct (mem_str "top1_score" (tcols a)) eqn:Ht; cbn [negb] in Hk.
      * destruct (2 <=? count_occ string_dec (tcols a) "top1_score"); [discriminate|].
        destruct (queries_for_s3 parse_num e a) as [|c cs] eqn:Hq.
        -- injection Hk as <-. left. auto.
        -- apply bind_Ok in Hk. destruct Hk as [qs3 [Hq3 Hk]].
           apply bind_Ok in Hk. destruct Hk as [t3 [Ht3 Hk]]. injection Hk as <-.
           right. exists s3, qs3, t3. repeat split; auto. discriminate.
      * injection Hk as <-. left. auto.
    + injection Hk as <-. left. auto.
Qed.

(** ** Run-level helpers *)

Lemma existsb_cell_eqb c l : existsb (cell_eqb c) l = true <-> In c l.
Proof.
  rewrite existsb_exists. split.
  - intros [x [Hx E]]. unfold cell_eqb in E. destruct (cell_eq_dec c x); [subst; exact Hx | discriminate].
  - intros H. exists c. split; [exact H|]. unfold cell_eqb. destruct (cell_eq_dec c c); congruence.
Qed.

Lemma concat_rows ts : trows (concat_tables ts) = flat_map trows ts.
Proof. reflexivity. Qed.

Lemma NoDup_map_CStr l : NoDup l -> NoDup (map CStr l).
Proof.
  induction 1 as [|x l Hx Hl IH]; simpl; constructor; [|exact IH].
  rewrite in_map_iff. intros [y [Hy Hy']]. injection Hy as ->. contradiction.
Qed.

Lemma non_exact_NoDup e : NoDup (non_exact_matches_ls e).
Proof. apply StronglySorted_lt_NoDup, setdiff1d_StronglySorted. Qed.

Lemma NoDup_map_inj {A B : Type} (g : A -> B) l a b :
  NoDup (map g l) -> In a l -> In b l -> g a = g b -> a = b.
Proof.
  induction l as [|x l IH]; simpl; [tauto|]. intros Hnd Ha Hb E.
  inversion Hnd as [|? ? Hx Hl]; subst.
  destruct Ha as [<-|Ha], Hb as [<-|Hb]; auto.
  - exfalso. apply Hx. rewrite E. apply in_map, Hb.
  - exfalso. apply Hx. rewrite <- E. apply in_map, Ha.
Qed.

Lemma filter_split_perm {A : Type} (f : A -> bool) l :
  Permutation (filter (fun x => negb (f x)) l ++ filter f l) l.
Proof.
  induction l as [|a l IH]; [constructor|]. simpl. destruct (f a); simpl.
  - rewrite <- Permutation_middle. constructor. exact IH.
  - constructor. exact IH.
Qed.

Lemma count_occ_map_CStr l q :
  count_occ cell_eq_dec (map CStr l) (CStr q) = count_occ string_dec l q.
Proof.
  induction l as [|x l IH]; [reflexivity|]. simpl.
  destruct (cell_eq_dec (CStr x) (CStr q)) as [E|E], (string_dec x q) as [E'|E'];
    try (injection E as E); subst; try congruence; rewrite IH; reflexivity.
Qed.

Lemma count_occ_filter_str (f : string -> bool) l q :
  count_occ string_dec (filter f l) q = if f q then count_occ string_dec l q else 0.
Proof.
  induction l as [|x l IH]; simpl; [destruct (f q); reflexivity|].
  destruct (f x) eqn:Hf; simpl; destruct (string_dec x q) as [<-|E];
    rewrite IH; try rewrite Hf; reflexivity.
Qed.

Lemma Qlt_bool_iff a b : Qlt_bool a b = true <-> (a < b)%Q.
Proof.
  unfold Qlt_bool. rewrite negb_true_iff. split.
  - intros H. apply Qnot_le_lt. intros H'. apply Qle_bool_iff in H'. congruence.
  - intros H. destruct (Qle_bool b a) eqn:E; [|reflexivity].
    apply Qle_bool_iff in E. exfalso. apply (Qlt_not_le a b H E).
Qed.

(** With distinct originals, [isin(queries_for_s3)] filters exactly the
    low-confidence rows. *)
Lemma s2_res_filtered_rows parse_num e s2 :
  NoDup (table_originals s2) ->
  trows (s2_res_filtered parse_num e s2) =
  filter (fun r => negb (low_confidence parse_num e r)) (trows s2).
Proof.
  intros Hnd. unfold s2_res_filtered. cbn [trows]. apply filter_ext_in.
  intros a Ha. f_equal. unfold queries_for_s3.
  destruct (low_confidence parse_num e a) eqn:Hl.
  - apply existsb_cell_eqb. apply (in_map (fun r => rget r "original_value")), filter_In. auto.
  - destruct (existsb _ _) eqn:Ex; [|reflexivity]. exfalso.
    apply existsb_cell_eqb, in_map_iff in Ex. destruct Ex as [b [Eb Hb]].
    apply filter_In in Hb. destruct Hb as [Hb Hlb].
    assert (a = b) by (apply (NoDup_map_inj (fun r => rget r "original_value") (trows s2)); auto).
    congruence.
Qed.

Lemma s2_res_filtered_In parse_num e s2 r :
  In r (trows (s2_res_filtered parse_num e s2)) ->
  In r (trows s2) /\ ~ In (rget r "original_value") (queries_for_s3 parse_num e s2).
Proof.
  unfold s2_res_filtered. cbn [trows]. rewrite filter_In. intros [Hr E].
  split; [exact Hr|]. intros Hin. apply existsb_cell_eqb in Hin. rewrite Hin in E. discriminate.
Qed.

Lemma queries_for_s3_In parse_num e s2 c :
  In c (queries_for_s3 parse_num e s2) ->
  exists r, In r (trows s2) /\ low_confidence parse_num e r = true /\ rget r "original_value" = c.
Proof.
  unfold queries_for_s3. rewrite in_map_iff. intros [r [Er Hr]]. apply filter_In in Hr.
  exists r. tauto.
Qed.

Lemma stage_cover e abbr be strat qs n t o :
  stage_table e abbr be strat qs n = Ok t -> In o qs ->
  exists r, In r (trows t) /\ rget r "original_value" = CStr o /\ rget r "stage" = CInt n.
Proof.
  intros H Ho. pose proof H as H'. apply stage_table_Ok in H'.
  destruct H' as [rdf [uq [ucm [B [merged [Hp [Hb _]]]]]]].
  destruct (stage_row_cover e abbr be strat qs n t rdf uq ucm B Hp Hb H o Ho) as [r [Hr [Ho' [Hs _]]]].
  eauto.
Qed.

Section Keyed.

Variable be : Backend.
Hypothesis be_keyed : forall s qs cs k cm tp, keyed (be s qs cs k cm tp).

Lemma stage_originals e abbr strat qs n t :
  stage_table e abbr be strat qs n = Ok t -> table_originals t = map CStr qs.
Proof.
  intros H. pose proof H as H'. apply stage_table_Ok in H'.
  destruct H' as [rdf [uq [ucm [B [merged [Hp [Hb _]]]]]]].
  apply (stage_originals_keyed e abbr be strat qs n t rdf uq ucm B Hp Hb); [|exact H].
  apply run_backend_Ok in Hb. rewrite Hb. apply be_keyed.
Qed.

End Keyed.


Lemma queries_for_s3_rest parse_num e abbr be strat qs s2 c :
  stage_table e abbr be strat qs 2 = Ok s2 ->
  In c (queries_for_s3 parse_num e s2) -> exists o, c = CStr o /\ In o qs.
Proof.
  intros Hs Hc. apply queries_for_s3_In in Hc. destruct Hc as [r [Hr [_ <-]]].
  destruct (stage_row_from e abbr be strat qs 2 s2 r Hs Hr) as [o [Ho [Eo _]]]. eauto.
Qed.



Lemma run_exact_rows parse_num e abbr be T r :
  run parse_num e abbr be = Ok T -> In r (trows (exact_df e)) -> In r (trows T).
Proof.
  intros H Hr. apply run_Ok in H.
  destruct H as [[_ ->]|[s2 [_ [_ [[-> _]|[s3 [qs3 [t3 [_ [_ [_ [_ [_ ->]]]]]]]]]]]]];
    try rewrite concat_rows; simpl; try apply in_app_iff; auto.
Qed.



(** With keyed backends, the rows of a run are the stage-1 rows followed by
    stage-2/3 rows whose originals are the remaining queries, once each. *)
Lemma run_split parse_num e abbr be T :
  (forall s qs cs k cm tp, keyed (be s qs cs k cm tp)) ->
  run parse_num e abbr be = Ok T ->
  exists Rs, trows T = trows (exact_df e) ++ Rs /\
    (forall r, In r Rs -> rget r "stage" = CInt 2 \/ rget r "stage" = CInt 3) /\
    Permutation (map (fun r => rget r "original_value") Rs) (map CStr (non_exact_matches_ls e)).
Proof.
  intros Hk H. apply run_Ok in H.
  destruct H as [[Hr ->]|[s2 [_ [Hs2 [[-> _]|[s3 [qs3 [t3 [_ [_ [_ [Hm [Ht3 ->]]]]]]]]]]]]].
  - exists []. rewrite app_nil_r, Hr. repeat split; [intros r []|constructor].
  - exists (trows s2). rewrite concat_rows. simpl. rewrite app_nil_r. split; [reflexivity|]. split.
    + intros r Hr. destruct (stage_row_from _ _ _ _ _ _ _ _ Hs2 Hr) as [o [_ [_ Es]]]. auto.
    + change (map _ (trows s2)) with (table_originals s2).
      rewrite (stage_originals be Hk _ _ _ _ _ _ Hs2). reflexivity.
  - exists (trows (s2_res_filtered parse_num e s2) ++ trows t3).
    rewrite concat_rows. cbn [flat_map]. rewrite app_nil_r. split; [reflexivity|]. split.
    + intros r Hr. apply in_app_iff in Hr. destruct Hr as [Hr|Hr].
      * apply s2_res_filtered_In in Hr. destruct Hr as [Hr _].
        destruct (stage_row_from _ _ _ _ _ _ _ _ Hs2 Hr) as [o [_ [_ Es]]]. auto.
      * destruct (stage_row_from _ _ _ _ _ _ _ _ Ht3 Hr) as [o [_ [_ Es]]]. auto.
    + pose proof (stage_originals be Hk _ _ _ _ _ _ Hs2) as Ho2.
      pose proof (stage_originals be Hk _ _ _ _ _ _ Ht3) as Ho3.
      pose proof (mapM_as_str _ _ Hm) as Hm'.
      rewrite map_app.
      rewrite s2_res_filtered_rows by (rewrite Ho2; apply NoDup_map_CStr, non_exact_NoDup).
      change (map _ (trows t3)) with (table_originals t3).
      rewrite Ho3, <- Hm'. unfold queries_for_s3. rewrite <- map_app, <- Ho2.
      unfold table_originals. apply Permutation_map, filter_split_perm.
Qed.

Lemma count_rename l :
  count_occ string_dec (map rename_col l) "updated_value" =
  count_occ string_dec l "original_value" + count_occ string_dec l "updated_value".
Proof.
  induction l as [|c l IH]; [reflexivity|]. cbn [map count_occ]. rewrite IH. unfold rename_col.
  destruct (String.eqb c "original_value") eqn:E.
  - apply String.eqb_eq in E. subst c. simpl. lia.
  - destruct (string_dec c "original_value") as [E'|_]; [subst; discriminate|].
    destruct (string_dec c "updated_value"); lia.
Qed.

(** A stage succeeds when the resolver's table loads, the strategy is a
    known one and the backend returns one [original_value] column and no
    [updated_value] column. *)
Lemma merge_left_succeeds l r key :
  count_occ string_dec (tcols r) key = 1 ->
  col_dtype (map (fun rr => rget rr key) (trows r)) = DObject ->
  exists m, merge_left l r key = Ok m.
Proof.
  intros Hc Hd.
  assert (Hm : mem_str key (tcols r) = true)
    by (apply mem_str_In, (count_occ_In string_dec); lia).
  unfold merge_left. rewrite Hm, Hc. cbv zeta. rewrite Hd.
  destruct (trows l); cbn; eauto.
Qed.

Lemma stage_table_succeeds e abbr be strat qs n :
  (forall err, abbr <> AbbrBroken err) ->
  mem_str strat ["lm"; "st"; "rag"; "rag_bie"]%string = true ->
  (forall qs' cs k cm tp,
     count_occ string_dec (tcols (be strat qs' cs k cm tp)) "original_value" = 1 /\
     ~ In "updated_value" (tcols (be strat qs' cs k cm tp))) ->
  (forall qs' cs k cm tp, col_dtype (map backend_key (trows (be strat qs' cs k cm tp))) = DObject) ->
  exists t, stage_table e abbr be strat qs n = Ok t.
Proof.
  intros Hab Hs Hshape Hdt.
  destruct (stage_prepare_succeeds e abbr qs Hab) as [rdf [uq [ucm Hp]]].
  unfold stage_table. rewrite Hp. cbn [bind].
  unfold run_backend. rewrite Hs. cbn [bind].
  set (B := be strat uq (e_corpus e) (e_topk e) ucm (e_test_or_prod e)).
  destruct (Hshape uq (e_corpus e) (e_topk e) ucm (e_test_or_prod e)) as [H1 H2].
  fold B in H1, H2.
  assert (Hc : count_occ string_dec (tcols (rename_original B)) "updated_value" = 1).
  { unfold rename_original. cbn [tcols]. rewrite count_rename, H1.
    rewrite (count_occ_not_In string_dec) in H2. rewrite H2. reflexivity. }
  assert (Hd : col_dtype (map (fun rr => rget rr "updated_value") (trows (rename_original B)))
               = DObject).
  { unfold rename_original. cbn [trows]. rewrite map_map.
    exact (Hdt uq (e_corpus e) (e_topk e) ucm (e_test_or_prod e)). }
  destruct (merge_left_succeeds rdf _ _ Hc Hd) as [m Hm]. rewrite Hm. cbn [bind]. eauto.
Qed.

(** A stage only calls the backend under its own strategy name. *)
Lemma stage_table_agree e abbr be be' strat qs n :
  (forall qs' cs k cm tp, be' strat qs' cs k cm tp = be strat qs' cs k cm tp) ->
  stage_table e abbr be' strat qs n = stage_table e abbr be strat qs n.
Proof.
  intros H. unfold stage_table.
  destruct (stage_prepare e abbr qs) as [[[rdf uq] ucm]|msg]; [|reflexivity]. cbn [bind].
  unfold run_backend. rewrite H. reflexivity.
Qed.

Lemma stage_cols_top1' e abbr be strat qs n t :
  stage_table e abbr be strat qs n = Ok t ->
  In "top1_score" (tcols t) ->
  exists qs' cs k cm tp, In "top1_score" (tcols (be strat qs' cs k cm tp)).
Proof.
  intros H Ht. pose proof H as H'. apply stage_table_Ok in H'.
  destruct H' as [rdf [uq [ucm [B [merged [Hp [Hb _]]]]]]].
  pose proof (stage_cols_top1 _ _ _ _ _ _ _ _ _ _ _ Hp Hb H Ht) as HB.
  apply run_backend_Ok in Hb. subst B. eauto 6.
Qed.

Lemma count_set_col_other t c f x :
  x <> c -> count_occ string_dec (tcols (set_col t c f)) x = count_occ string_dec (tcols t) x.
Proof.
  intros H. unfold set_col; cbn [tcols]. destruct (mem_str c (tcols t)); [reflexivity|].
  rewrite count_occ_app. cbn [count_occ]. destruct (string_dec c x) as [->|_]; [congruence | lia].
Qed.

Lemma count_filter_neq l k x :
  x <> k -> count_occ string_dec (filter (fun c => negb (String.eqb c k)) l) x = count_occ string_dec l x.
Proof.
  intros H. induction l as [|c l IH]; [reflexivity|]. cbn [filter].
  destruct (String.eqb c k) eqn:E; cbn [negb].
  - apply String.eqb_eq in E. subst c. cbn [count_occ].
    destruct (string_dec k x) as [->|_]; [congruence | exact IH].
  - cbn [count_occ]. rewrite IH. reflexivity.
Qed.

Lemma count_rename_other l x :
  x <> "original_value" -> x <> "updated_value" ->
  count_occ string_dec (map rename_col l) x = count_occ string_dec l x.
Proof.
  intros H1 H2. induction l as [|c l IH]; [reflexivity|]. cbn [map count_occ]. rewrite IH.
  unfold rename_col. destruct (String.eqb c "original_value") eqn:E; [|reflexivity].
  apply String.eqb_eq in E. subst c.
  destruct (string_dec "updated_value" x); [congruence|].
  destruct (string_dec "original_value" x); [congruence | reflexivity].
Qed.

(** A stage table has as many [top1_score] columns as the backend output it was built from. *)
Lemma stage_count_top1 e abbr be strat qs n t :
  stage_table e abbr be strat qs n = Ok t ->
  exists qs' cs k cm tp,
    count_occ string_dec (tcols t) "top1_score" =
    count_occ string_dec (tcols (be strat qs' cs k cm tp)) "top1_score".
Proof.
  intros H. apply stage_table_Ok in H.
  destruct H as [rdf [uq [ucm [B [merged [Hp [Hb [Hm ->]]]]]]]].
  apply run_backend_Ok in Hb. subst B.
  apply stage_prepare_Ok in Hp. destruct Hp as [_ [Hcols _]].
  pose proof (merge_left_Ok _ _ _ _ Hm) as [Hmcols _].
  exists uq, (e_corpus e), (e_topk e), ucm, (e_test_or_prod e).
  rewrite !count_set_col_other by discriminate.
  rewrite Hmcols, Hcols, count_occ_app. cbn [rename_original tcols].
  rewrite count_filter_neq, count_rename_other by discriminate. reflexivity.
Qed.

Lemma exact_df_in_stage1 e r : In r (trows (exact_df e)) -> rget r "stage" = CInt 1.
Proof. intros H. destruct (exact_df_In e r H) as [q [_ [_ [Hst _]]]]. exact Hst. Qed.

(** ** The normaliser *)






Lemma drop_duplicates_aux_sub keep seen rows r :
  In r (drop_duplicates_aux keep seen rows) -> In r rows.
Proof.
  revert seen. induction rows as [|x rows IH]; intros seen H; [destruct H|]. simpl in H.
  destruct (existsb _ seen).
  - right. apply (IH _ H).
  - destruct H as [<-|H]; [left; reflexivity | right; apply (IH _ H)].
Qed.


Lemma dropna_In keep rows r :
  In r (dropna keep rows) <-> In r rows /\ forall k, In k keep -> is_null (rget r k) = false.
Proof.
  unfold dropna. rewrite filter_In, forallb_forall. split; intros [H1 H2]; split; auto.
  - intros k Hk. apply negb_true_iff, H2, Hk.
  - intros k Hk. apply negb_true_iff, H2, Hk.
Qed.

Lemma set_col_rows_In t c f r :
  In r (trows (set_col t c f)) <-> exists r0, In r0 (trows t) /\ r = rset r0 c (f r0).
Proof.
  unfold set_col. cbn [trows]. rewrite in_map_iff. split; intros [r0 [H1 H2]]; eauto.
Qed.


Lemma is_null_false c : is_null c = false <-> c <> CNull.
Proof. destruct c; simpl; split; congruence. Qed.






(** ** The example backends *)

Lemma ex_backend_keyed s qs cs k cm tp : keyed (ex_backend s qs cs k cm tp).
Proof.
  unfold keyed, ex_backend. cbn [trows]. rewrite map_map.
  rewrite (map_ext _ CStr) by (intros q; reflexivity).
  apply NoDup_map_CStr, NoDup_nodup.
Qed.

(** * The specification's claims *)

(** C1 (amended).  With keyed backends and no query ending in a NUL
    character, a query matched exactly in stage 1 keeps every occurrence of
    the input, but a query left to stage 2 appears exactly once however
    often it occurs in the input: [np.setdiff1d] collapses duplicates.
    Every [original_value] of the result is an input query. *)
Theorem run_original_counts parse_num e abbr be T :
  (forall s qs cs k cm tp, keyed (be s qs cs k cm tp)) ->
  (forall q, In q (e_query e) -> np_str q = q) ->
  run parse_num e abbr be = Ok T ->
  (forall q, count_occ cell_eq_dec (table_originals T) (CStr q) =
     if is_exact e q then count_occ string_dec (e_query e) q
     else if mem_str q (e_query e) then 1 else 0) /\
  (forall c, In c (table_originals T) -> exists q, c = CStr q /\ In q (e_query e)).
Proof.
  intros Hk Hn H. destruct (run_split _ _ _ _ _ Hk H) as [Rs [Hrows [_ Hperm]]].
  assert (Horig : table_originals T =
                  map CStr (exact_matching e) ++ map (fun r => rget r "original_value") Rs).
  { unfold table_originals. rewrite Hrows, map_app. f_equal. apply exact_df_originals. }
  split.
  - intros q. rewrite Horig, count_occ_app.
    rewrite (proj1 (Permutation_count_occ cell_eq_dec _ _) Hperm).
    rewrite !count_occ_map_CStr. unfold exact_matching. rewrite count_occ_filter_str.
    destruct (is_exact e q) eqn:Ex.
    + rewrite (proj1 (count_occ_not_In string_dec (non_exact_matches_ls e) q)); [lia|].
      rewrite (non_exact_In_plain e _ Hn). intros [_ E]. congruence.
    + destruct (mem_str q (e_query e)) eqn:Hm.
      * rewrite (proj1 (NoDup_count_occ' string_dec _) (non_exact_NoDup e) q); [reflexivity|].
        apply (non_exact_In_plain e _ Hn). split; [apply mem_str_In, Hm | exact Ex].
      * rewrite (proj1 (count_occ_not_In string_dec (non_exact_matches_ls e) q)); [reflexivity|].
        rewrite (non_exact_In_plain e _ Hn). intros [Hq _]. apply mem_str_In in Hq. congruence.
  - intros c Hc. rewrite Horig, in_app_iff in Hc. destruct Hc as [Hc|Hc].
    + apply in_map_iff in Hc. destruct Hc as [q [<- Hq]]. exists q. split; [reflexivity|].
      apply exact_matching_In in Hq. tauto.
    + apply (Permutation_in _ Hperm), in_map_iff in Hc. destruct Hc as [q [<- Hq]].
      exists q. split; [reflexivity|]. apply (non_exact_In_plain e _ Hn) in Hq. tauto.
Qed.

(** C2.  With a stage-3 strategy and a [top1_score] column in stage 2, a
    stage-2 row whose coerced score is below [s3_threshold] is absent from
    the result, which holds a stage-3 row for its [original_value]; a row
    scoring at least the threshold is in the result unchanged (backends
    keyed by query, spec 4.4). *)
Theorem escalation_replaces_low_rows parse_num e abbr be s3 T s2 :
  (forall s qs cs k cm tp, keyed (be s qs cs k cm tp)) ->
  e_s3_strategy e = Some s3 ->
  stage_table e abbr be (e_s2_strategy e) (non_exact_matches_ls e) 2 = Ok s2 ->
  In "top1_score" (tcols s2) ->
  run parse_num e abbr be = Ok T ->
  forall r, In r (trows s2) ->
    ((coerce_score parse_num (rget r "top1_score") < e_s3_threshold e)%Q ->
       ~ In r (trows T) /\
       exists r3, In r3 (trows T) /\
         rget r3 "original_value" = rget r "original_value" /\ rget r3 "stage" = CInt 3) /\
    (~ (coerce_score parse_num (rget r "top1_score") < e_s3_threshold e)%Q -> In r (trows T)).
Proof.
  intros Hk Hs3 Hs2 Htop H r Hr.
  destruct (stage_row_from _ _ _ _ _ _ _ _ Hs2 Hr) as [o [Ho [Eo Es]]].
  assert (Hlow : (coerce_score parse_num (rget r "top1_score") < e_s3_threshold e)%Q ->
                 In (rget r "original_value") (queries_for_s3 parse_num e s2)).
  { intros Hl. unfold queries_for_s3. apply (in_map (fun r => rget r "original_value")).
    apply filter_In. split; [exact Hr|]. unfold low_confidence. apply Qlt_bool_iff, Hl. }
  apply run_Ok in H. destruct H as [[Hrest _]|[s2' [_ [Hs2' Hpath]]]].
  - rewrite Hrest in Ho. destruct Ho.
  - rewrite Hs2 in Hs2'. injection Hs2' as <-.
    destruct Hpath as [[-> Hcase]|[s3' [qs3 [t3 [_ [_ [_ [Hm [Ht3 ->]]]]]]]]].
    + assert (Hq : queries_for_s3 parse_num e s2 = []).
      { destruct Hcase as [Hc|[Hc|Hc]]; [congruence| |exact Hc].
        apply (proj2 (mem_str_In _ _)) in Htop. congruence. }
      split.
      * intros Hl. apply Hlow in Hl. rewrite Hq in Hl. destruct Hl.
      * intros _. rewrite concat_rows. cbn [flat_map]. rewrite !in_app_iff. auto.
    + split.
      * intros Hl. apply Hlow in Hl. split.
        -- intros HT. rewrite concat_rows in HT. cbn [flat_map] in HT. rewrite !in_app_iff in HT.
           destruct HT as [HT|[HT|[HT|[]]]].
           ++ rewrite (exact_df_in_stage1 e r HT) in Es. discriminate.
           ++ apply s2_res_filtered_In in HT. destruct HT as [_ Hn]. contradiction.
           ++ destruct (stage_row_from _ _ _ _ _ _ _ _ Ht3 HT) as [o3 [_ [_ Es3]]].
              rewrite Es3 in Es. discriminate.
        -- pose proof (mapM_as_str _ _ Hm) as Hm'. rewrite Eo, Hm' in Hl.
           apply in_map_iff in Hl. destruct Hl as [o' [Eo' Ho']]. injection Eo' as Eo''. subst o'.
           destruct (stage_cover _ _ _ _ _ _ _ _ Ht3 Ho') as [r3 [Hr3 [Eo3 Es3]]].
           exists r3. split; [rewrite concat_rows; cbn [flat_map]; rewrite !in_app_iff; auto|].
           rewrite Eo3, Eo. auto.
      * intros Hh. rewrite concat_rows. cbn [flat_map]. rewrite !in_app_iff. right; left.
        rewrite s2_res_filtered_rows.
        -- apply filter_In. split; [exact Hr|].
           destruct (low_confidence parse_num e r) eqn:Hl; [|reflexivity].
           exfalso. apply Hh, Qlt_bool_iff, Hl.
        -- rewrite (stage_originals be Hk _ _ _ _ _ _ Hs2). apply NoDup_map_CStr, non_exact_NoDup.
Qed.

(** C3.  A query whose stripped, lower-cased form is that of a corpus
    entry has a row in the result with stage 1, match level 1, every
    [top{i}_score] equal to 1 and every [top{i}_match] equal to its curated
    value, or to the query itself when the curation map has none. *)
Theorem exact_rows_in_output parse_num e abbr be T q :
  run parse_num e abbr be = Ok T ->
  In q (e_query e) ->
  (exists c, In c (e_corpus e) /\ lower (strip q) = lower (strip c)) ->
  exists r, In r (trows T) /\
    rget r "original_value" = CStr q /\ rget r "stage" = CInt 1 /\
    rget r "match_level" = CInt 1 /\
    forall i, 1 <= i <= e_topk e ->
      rget r (top_score i) = CFloat 1 /\
      rget r (top_match i) = match dget (e_cura_map e) q with
                             | Some v => CStr v
                             | None => CStr q
                             end.
Proof.
  intros H Hq [c [Hc Ec]].
  assert (Hx : is_exact e q = true).
  { unfold is_exact, corpus_normalized. apply mem_str_In. rewrite Ec.
    apply (in_map (fun c => lower (strip c))), Hc. }
  assert (Hqe : In q (exact_matching e)) by (apply exact_matching_In; auto).
  destruct (exact_df_has e q Hqe) as [r [Hr Hok]].
  exists r. split; [apply (run_exact_rows _ _ _ _ _ _ H Hr) | exact Hok].
Qed.


(** C5.  With a stage-3 strategy configured, a stage-2 backend whose
    output has one [original_value] column, no [updated_value] column and
    no [top1_score] column, and whose [original_value] column pandas reads
    as [object] (not all numbers), makes [run] succeed (given an
    abbreviation table that loads) with exactly the stage-1 rows followed
    by the stage-2 rows;
    the result does not depend on the backend under any other strategy, so
    stage 3 is never invoked. *)
Theorem missing_top1_degrades parse_num e abbr be s3 :
  e_s3_strategy e = Some s3 ->
  In (e_s2_strategy e) ["lm"; "st"]%string ->
  (forall err, abbr <> AbbrBroken err) ->
  non_exact_matches_ls e <> [] ->
  (forall qs cs k cm tp,
     count_occ string_dec (tcols (be (e_s2_strategy e) qs cs k cm tp)) "original_value" = 1 /\
     ~ In "updated_value" (tcols (be (e_s2_strategy e) qs cs k cm tp)) /\
     ~ In "top1_score" (tcols (be (e_s2_strategy e) qs cs k cm tp))) ->
  (forall qs cs k cm tp,
     col_dtype (map backend_key (trows (be (e_s2_strategy e) qs cs k cm tp))) = DObject) ->
  exists s2,
    stage_table e abbr be (e_s2_strategy e) (non_exact_matches_ls e) 2 = Ok s2 /\
    ~ In "top1_score" (tcols s2) /\
    forall be' : Backend,
      (forall qs cs k cm tp, be' (e_s2_strategy e) qs cs k cm tp = be (e_s2_strategy e) qs cs k cm tp) ->
      run parse_num e abbr be' = Ok (concat_tables [exact_df e; s2]).
Proof.
  intros Hs3 Hs2 Hab Hne Hshape Hdt.
  assert (Hmem : mem_str (e_s2_strategy e) ["lm"; "st"; "rag"; "rag_bie"]%string = true).
  { destruct Hs2 as [<-|[<-|[]]]; reflexivity. }
  destruct (stage_table_succeeds e abbr be (e_s2_strategy e) (non_exact_matches_ls e) 2 Hab Hmem)
    as [s2 Hst].
  { intros qs cs k cm tp. destruct (Hshape qs cs k cm tp) as [H1 [H2 _]]. auto. }
  { exact Hdt. }
  assert (Hno : ~ In "top1_score" (tcols s2)).
  { intros Ht. destruct (stage_cols_top1' _ _ _ _ _ _ _ Hst Ht) as [qs [cs [k [cm [tp Hin]]]]].
    apply (Hshape qs cs k cm tp), Hin. }
  exists s2. split; [exact Hst|]. split; [exact Hno|].
  intros be' Hagree. unfold run. cbv zeta.
  rewrite (stage_table_agree e abbr be be' _ _ _ Hagree).
  destruct (non_exact_matches_ls e) as [|q rest] eqn:Hr; [contradiction|].
  rewrite Hst. cbn [bind]. rewrite Hs3.
  destruct (mem_str "top1_score" (tcols s2)) eqn:Ht; [apply mem_str_In in Ht; contradiction|].
  reflexivity.
Qed.

(** C7.  In a stage (2 or 3), every query submitted has a row tagged with
    it and the stage; when the backend returned no row for its expanded
    query, every field coming from the backend is null. *)
Theorem stage_left_join_preserves e abbr be strat qs n t rdf uq ucm B :
  stage_prepare e abbr qs = Ok (rdf, uq, ucm) ->
  run_backend e be strat uq ucm = Ok B ->
  stage_table e abbr be strat qs n = Ok t ->
  forall o, In o qs ->
  exists r, In r (trows t) /\ rget r "original_value" = CStr o /\ rget r "stage" = CInt n /\
    ((forall rr, In rr (trows B) -> backend_key rr <> rget r "updated_value") ->
     forall c, In c (tcols B) -> c <> "original_value" -> c <> "updated_value" ->
       c <> "curated_ontology" -> c <> "stage" -> rget r c = CNull).
Proof.
  intros Hp Hb H o Ho.
  destruct (stage_row_cover e abbr be strat qs n t rdf uq ucm B Hp Hb H o Ho)
    as [r [Hr [Eo [Es Hnull]]]].
  exists r. repeat split; auto.
Qed.





(** C6 (amended).  The resolver raises whatever the table's loading raises,
    unless the file is missing; otherwise its domain is exactly the given
    strings and each maps to the table's name for its stripped form, or to
    its stripped form when the table has no entry or the file is missing. *)
Theorem resolver_contract abbr qs :
  (forall err, abbr = AbbrBroken err -> map_shortname_to_fullname abbr qs = Err err) /\
  ((forall err, abbr <> AbbrBroken err) ->
   exists d, map_shortname_to_fullname abbr qs = Ok d /\
     (forall k, dmem d k = true <-> In k qs) /\
     (forall q, In q qs ->
        dget d q = Some (match abbr with
                         | AbbrFile rows =>
                             match abbr_lookup rows (strip q) with
                             | Some n => n
                             | None => strip q
                             end
                         | _ => strip q
                         end))).
Proof.
  split.
  - intros err ->. reflexivity.
  - intros Hab. destruct (resolver_succeeds abbr qs Hab) as [d Hd].
    exists d. split; [exact Hd|]. split.
    + intros k. rewrite dmem_dget, (resolver_Ok _ _ _ Hd k), <- mem_str_In.
      destruct (mem_str k qs); split; congruence.
    + intros q Hq. rewrite (resolver_Ok _ _ _ Hd q). apply mem_str_In in Hq. rewrite Hq.
      reflexivity.
Qed.

(** C6, counterexample.  With the file missing, [" XYZ"] maps to ["XYZ"],
    not to itself; a table that fails to load for another reason makes the
    resolver raise. *)
Lemma resolver_identity_counterexample :
  map_shortname_to_fullname AbbrNotFound [" XYZ"] = Ok [(" XYZ", "XYZ")] /\
  " XYZ" <> "XYZ" /\
  map_shortname_to_fullname (AbbrBroken "KeyError: 'code'") ["XYZ"] = Err "KeyError: 'code'".
Proof. split; [reflexivity|]. split; [discriminate | reflexivity]. Qed.

(** C8.  Normalising twice is not normalising once: [drop_duplicates] runs
    before [astype(str)], so the labels [1] and ["1"] survive the first pass
    as two rows with label ["1"], which the second pass merges. *)
Theorem normalize_not_idempotent fs :
  normalize_df fs mixed_label_table false =
    Ok (mkTable ["official_label"] [[("official_label", CStr "1")]; [("official_label", CStr "1")]]) /\
  normalize_df fs (mkTable ["official_label"] [[("official_label", CStr "1")]; [("official_label", CStr "1")]]) false =
    Ok (mkTable ["official_label"] [[("official_label", CStr "1")]]).
Proof. split; reflexivity. Qed.

(** C1, counterexample.  [XYZ] occurs twice in the input and is not an
    exact match: the result has one row for it. *)
Lemma coverage_duplicates_counterexample :
  count_occ string_dec (e_query (ex_engine ["XYZ"; "XYZ"] None)) "XYZ" = 2 /\
  run ex_parse (ex_engine ["XYZ"; "XYZ"] None) AbbrNotFound ex_backend =
    Ok (res_table (run ex_parse (ex_engine ["XYZ"; "XYZ"] None) AbbrNotFound ex_backend)) /\
  count_occ cell_eq_dec
    (table_originals (res_table (run ex_parse (ex_engine ["XYZ"; "XYZ"] None) AbbrNotFound ex_backend)))
    (CStr "XYZ") = 1.
Proof. split; [reflexivity|]. split; vm_compute; reflexivity. Qed.



(** * Witnesses *)

Lemma run_original_counts_witness :
  run ex_parse ex_E3 AbbrNotFound ex_backend = Ok ex_T3 /\
  (forall q, count_occ cell_eq_dec (table_originals ex_T3) (CStr q) =
     if is_exact ex_E3 q then count_occ string_dec (e_query ex_E3) q
     else if mem_str q (e_query ex_E3) then 1 else 0) /\
  (forall c, In c (table_originals ex_T3) -> exists q, c = CStr q /\ In q (e_query ex_E3)).
Proof.
  split; [vm_compute; reflexivity|].
  apply (run_original_counts ex_parse ex_E3 AbbrNotFound ex_backend ex_T3);
    [apply ex_backend_keyed | apply np_str_fixed_all; vm_compute; reflexivity
    | vm_compute; reflexivity].
Defined.

Lemma escalation_replaces_low_rows_witness :
  run ex_parse ex_E3 AbbrNotFound ex_backend = Ok ex_T3 /\
  stage_table ex_E3 AbbrNotFound ex_backend "lm" (non_exact_matches_ls ex_E3) 2 = Ok ex_S2 /\
  forall r, In r (trows ex_S2) ->
    ((coerce_score ex_parse (rget r "top1_score") < e_s3_threshold ex_E3)%Q ->
       ~ In r (trows ex_T3) /\
       exists r3, In r3 (trows ex_T3) /\
         rget r3 "original_value" = rget r "original_value" /\ rget r3 "stage" = CInt 3) /\
    (~ (coerce_score ex_parse (rget r "top1_score") < e_s3_threshold ex_E3)%Q -> In r (trows ex_T3)).
Proof.
  split; [vm_compute; reflexivity|]. split; [vm_compute; reflexivity|].
  apply (escalation_replaces_low_rows ex_parse ex_E3 AbbrNotFound ex_backend "rag" ex_T3 ex_S2).
  - apply ex_backend_keyed.
  - reflexivity.
  - vm_compute. reflexivity.
  - apply mem_str_In. vm_compute. reflexivity.
  - vm_compute. reflexivity.
Defined.

Lemma exact_rows_in_output_witness :
  run ex_parse ex_E3 AbbrNotFound ex_backend = Ok ex_T3 /\
  exists r, In r (trows ex_T3) /\
    rget r "original_value" = CStr " lung cancer" /\ rget r "stage" = CInt 1 /\
    rget r "match_level" = CInt 1 /\
    forall i, 1 <= i <= e_topk ex_E3 ->
      rget r (top_score i) = CFloat 1 /\
      rget r (top_match i) = match dget (e_cura_map ex_E3) " lung cancer" with
                             | Some v => CStr v
                             | None => CStr " lung cancer"
                             end.
Proof.
  split; [vm_compute; reflexivity|].
  apply (exact_rows_in_output ex_parse ex_E3 AbbrNotFound ex_backend ex_T3 " lung cancer").
  - vm_compute. reflexivity.
  - apply mem_str_In. vm_compute. reflexivity.
  - exists "Lung Cancer". split; [left; reflexivity | vm_compute; reflexivity].
Defined.


Lemma missing_top1_degrades_witness :
  exists s2,
    stage_table ex_E3 AbbrNotFound ex_backend_no_score (e_s2_strategy ex_E3)
      (non_exact_matches_ls ex_E3) 2 = Ok s2 /\
    ~ In "top1_score" (tcols s2) /\
    forall be' : Backend,
      (forall qs cs k cm tp, be' (e_s2_strategy ex_E3) qs cs k cm tp =
                             ex_backend_no_score (e_s2_strategy ex_E3) qs cs k cm tp) ->
      run ex_parse ex_E3 AbbrNotFound be' = Ok (concat_tables [exact_df ex_E3; s2]).
Proof.
  apply (missing_top1_degrades ex_parse ex_E3 AbbrNotFound ex_backend_no_score "rag").
  - reflexivity.
  - left. reflexivity.
  - intros err H. discriminate H.
  - vm_compute. discriminate.
  - intros qs cs k cm tp. split; [reflexivity|].
    split; cbn; intros [H|[H|[]]]; discriminate H.
  - intros qs cs k cm tp. unfold ex_backend_no_score. cbn [trows].
    destruct (nodup string_dec qs); reflexivity.
Defined.

Lemma stage_left_join_preserves_witness :
  stage_prepare ex_E3 AbbrNotFound ["XYZ"; "abc"] =
    Ok (mkTable ["original_value"; "updated_value"]
          [[("original_value", CStr "XYZ"); ("updated_value", CStr "XYZ")];
           [("original_value", CStr "abc"); ("updated_value", CStr "abc")]],
        ["XYZ"; "abc"], []) /\
  forall o, In o ["XYZ"; "abc"] ->
  exists r, In r (trows (res_table (stage_table ex_E3 AbbrNotFound ex_backend_drop "lm" ["XYZ"; "abc"] 2))) /\
    rget r "original_value" = CStr o /\ rget r "stage" = CInt 2 /\
    ((forall rr, In rr (trows (ex_backend_drop "lm" ["XYZ"; "abc"] ["Lung Cancer"] 1 [] "test")) ->
        backend_key rr <> rget r "updated_value") ->
     forall c, In c (tcols (ex_backend_drop "lm" ["XYZ"; "abc"] ["Lung Cancer"] 1 [] "test")) ->
       c <> "original_value" -> c <> "updated_value" ->
       c <> "curated_ontology" -> c <> "stage" -> rget r c = CNull).
Proof.
  split; [vm_compute; reflexivity|].
  apply (stage_left_join_preserves ex_E3 AbbrNotFound ex_backend_drop "lm" ["XYZ"; "abc"] 2
           (res_table (stage_table ex_E3 AbbrNotFound ex_backend_drop "lm" ["XYZ"; "abc"] 2))
           (mkTable ["original_value"; "updated_value"]
              [[("original_value", CStr "XYZ"); ("updated_value", CStr "XYZ")];
               [("original_value", CStr "abc"); ("updated_value", CStr "abc")]])
           ["XYZ"; "abc"] []).
  - vm_compute. reflexivity.
  - reflexivity.
  - vm_compute. reflexivity.
Defined.



(** * Further properties of the code *)

(** ** The constructor *)

Lemma map_fst_dset {V : Type} (d : Dict V) k v :
  map fst (dset d k v) = if dmem d k then map fst d else map fst d ++ [k].
Proof.
  unfold dset. destruct (dmem d k) eqn:Hm; [|rewrite map_app; reflexivity].
  rewrite map_map. apply map_ext. intros [a b]. simpl.
  destruct (String.eqb a k) eqn:E; [apply String.eqb_eq in E; subst; reflexivity | reflexivity].
Qed.

Lemma dmem_In {V : Type} (d : Dict V) k : dmem d k = true <-> In k (map fst d).
Proof.
  unfold dmem. rewrite existsb_exists. split.
  - intros [[a b] [H1 H2]]. simpl in H2. apply String.eqb_eq in H2. subst.
    apply (in_map fst _ _ H1).
  - intros H. apply in_map_iff in H. destruct H as [[a b] [H1 H2]]. simpl in H1. subst.
    exists (k, b). split; [exact H2 | apply String.eqb_refl].
Qed.

Lemma fromkeys_fold (xs : list string) (d0 : Dict unit) :
  NoDup (map fst d0) ->
  NoDup (map fst (fold_left (fun d p => dset d (fst p) (snd p)) (map (fun x => (x, tt)) xs) d0)) /\
  (forall x, In x (map fst (fold_left (fun d p => dset d (fst p) (snd p))
                              (map (fun x => (x, tt)) xs) d0)) <-> In x (map fst d0) \/ In x xs) /\
  (NoDup (map fst d0 ++ xs) ->
   map fst (fold_left (fun d p => dset d (fst p) (snd p)) (map (fun x => (x, tt)) xs) d0) =
   map fst d0 ++ xs).
Proof.
  revert d0; induction xs as [|x xs IH]; intros d0 Hd; simpl.
  - rewrite app_nil_r. split; [exact Hd|]. split; [intros y; tauto | reflexivity].
  - assert (Hd' : NoDup (map fst (dset d0 x tt))).
    { rewrite map_fst_dset. destruct (dmem d0 x) eqn:Hm; [exact Hd|].
      apply NoDup_app; [exact Hd | constructor; [intros []|constructor] |].
      intros y Hy [<-|[]]. apply dmem_In in Hy. congruence. }
    destruct (IH _ Hd') as [H1 [H2 H3]]. split; [exact H1|]. split.
    + intros y. rewrite H2, map_fst_dset. destruct (dmem d0 x) eqn:Hm.
      * apply dmem_In in Hm. split; [intros [H|H]; auto | intros [H|[<-|H]]]; auto.
      * rewrite in_app_iff. simpl. split; intros H; tauto.
    + intros Hn. rewrite H3; rewrite map_fst_dset.
      * assert (Hm : dmem d0 x = false).
        { destruct (dmem d0 x) eqn:Hm; [|reflexivity]. apply dmem_In in Hm.
          apply NoDup_remove_2 in Hn. exfalso. apply Hn, in_or_app. left. exact Hm. }
        rewrite Hm, <- app_assoc. reflexivity.
      * destruct (dmem d0 x) eqn:Hm.
        -- apply dmem_In in Hm. apply NoDup_remove_2 in Hn. exfalso. apply Hn, in_or_app. left. exact Hm.
        -- rewrite <- app_assoc. exact Hn.
Qed.

Lemma pd_unique_spec xs :
  NoDup (pd_unique xs) /\ (forall x, In x (pd_unique xs) <-> In x xs) /\
  (NoDup xs -> pd_unique xs = xs).
Proof.
  unfold pd_unique, dict_keys, dict_fromkeys, dict_of_list.
  destruct (fromkeys_fold xs [] (NoDup_nil _)) as [H1 [H2 H3]].
  split; [exact H1|]. split; [intros x; rewrite H2; simpl; tauto|]. exact H3.
Qed.

Lemma init_Ok fs method category query corpus cura topk s2 s3 thr tp cdf e d :
  init fs method category query corpus cura topk s2 s3 thr tp cdf = Ok (e, d) ->
  (exists v, tp = Some v /\ e_test_or_prod e = v) /\ In s2 ["lm"; "st"] /\
  e_method e = method /\ e_category e = category /\ e_query e = query /\
  e_cura_map e = cura /\ e_topk e = topk /\ e_s2_strategy e = s2 /\
  e_s3_strategy e = s3 /\ e_s3_threshold e = thr /\
  match s3 with
  | None => e_corpus e = pd_unique corpus /\ d = cdf
  | Some s => In s ["rag"; "rag_bie"] /\
      exists df df', cdf = Some df /\ normalize_df fs df true = Ok df' /\ d = Some df' /\
        e_corpus e = pd_unique (map (fun r => py_str fs (rget r "official_label")) (trows df'))
  end.
Proof.
  unfold init. destruct tp as [v|]; [|discriminate]. cbn [bind].
  destruct (mem_str s2 ["lm"; "st"]) eqn:H2; [|discriminate]. cbn [negb].
  apply mem_str_In in H2.
  destruct s3 as [s|].
  - destruct (mem_str s ["rag"; "rag_bie"]) eqn:H3; [|discriminate]. cbn [negb].
    apply mem_str_In in H3.
    destruct cdf as [df|]; [|discriminate]. intros H. inv_bind H. injection Hk as <- <-.
    split; [eauto|]. cbn. repeat split; auto. exists df, a. auto.
  - intros H. injection H as <- <-. split; [eauto|]. cbn. repeat split; auto.
Qed.

(** ** The normaliser's result *)

Lemma drop_duplicates_aux_length keep seen rows :
  List.length (drop_duplicates_aux keep seen rows) <= List.length rows.
Proof.
  revert seen; induction rows as [|r rows IH]; intros seen; simpl; [lia|].
  destruct (existsb _ seen); simpl; [specialize (IH seen) | specialize (IH (map (rget r) keep :: seen))]; lia.
Qed.

Lemma normalize_df_front fs df nc t :
  normalize_df fs df nc = Ok t ->
  exists df2,
    (forall c, In c (tcols df2) <-> In c (tcols df) \/ c = "official_label" \/ (nc = true /\ c = "clean_code")) /\
    List.length (trows df2) = List.length (trows df) /\
    (forall r2, In r2 (trows df2) -> exists r0, In r0 (trows df) /\
       forall c, c <> "official_label" -> c <> "clean_code" -> rget r2 c = rget r0 c) /\
    ((forall r, In r (trows df) -> forall c, In c ["official_label"; "label"; "clean_code"] ->
        rget r c = CNull \/ exists s, rget r c = CStr s) ->
     forall r, In r (trows df2) -> forall c, In c ["official_label"; "clean_code"] ->
        rget r c = CNull \/ exists s, rget r c = CStr s) /\
    let keep := ["official_label"] ++ (if nc then ["clean_code"] else []) in
    let df3 := mkTable (tcols df2) (drop_duplicates keep (dropna keep (trows df2))) in
    let df4 := set_col df3 "official_label" (fun r => CStr (py_str fs (rget r "official_label"))) in
    t = (if mem_str "clean_code" (tcols df4)
         then set_col df4 "clean_code" (fun r => CStr (py_str fs (rget r "clean_code")))
         else df4).
Proof.
  unfold normalize_df. intros H. apply bind_Ok in H. destruct H as [a [Hm Hk]].
  apply bind_Ok in Hk. destruct Hk as [a0 [Hm0 Hk]]. injection Hk as <-.
  assert (Hsame : forall r2, In r2 (trows df) -> exists r0, In r0 (trows df) /\
            forall c, c <> "official_label" -> c <> "clean_code" -> rget r2 c = rget r0 c)
    by (intros r2 H; exists r2; auto).
  assert (Hset : forall (t0 : Table) c f, c = "official_label" \/ c = "clean_code" ->
            (forall r2, In r2 (trows t0) -> exists r0, In r0 (trows df) /\
              forall c, c <> "official_label" -> c <> "clean_code" -> rget r2 c = rget r0 c) ->
            forall r2, In r2 (trows (set_col t0 c f)) -> exists r0, In r0 (trows df) /\
              forall c', c' <> "official_label" -> c' <> "clean_code" -> rget r2 c' = rget r0 c').
  { intros t0 c f Hc Ht0 r2 Hr2. apply set_col_rows_In in Hr2. destruct Hr2 as [r1 [Hr1 ->]].
    destruct (Ht0 r1 Hr1) as [r0 [Hr0 E]]. exists r0. split; [exact Hr0|].
    intros c' H1 H2. rewrite rget_rset_other by (destruct Hc; subst; congruence). apply E; auto. }
  assert (Hol : In "official_label" (tcols a) /\
                (forall c, In c (tcols a) <-> In c (tcols df) \/ c = "official_label") /\
                List.length (trows a) = List.length (trows df) /\
                (forall r2, In r2 (trows a) -> exists r0, In r0 (trows df) /\
                   forall c, c <> "official_label" -> c <> "clean_code" -> rget r2 c = rget r0 c) /\
                ((forall r, In r (trows df) -> forall c, In c ["official_label"; "label"; "clean_code"] ->
                    rget r c = CNull \/ exists s, rget r c = CStr s) ->
                 forall r, In r (trows a) -> forall c, In c ["official_label"; "clean_code"] ->
                    rget r c = CNull \/ exists s, rget r c = CStr s)).
  { destruct (mem_str "official_label" (tcols df)) eqn:E1.
    - injection Hm as <-. apply mem_str_In in E1. split; [exact E1|].
      split; [intros c; split; [tauto | intros [H| ->]; auto]|]. split; [auto|]. split; [auto|].
      intros Hs r Hr c Hc. apply Hs; [exact Hr|]. simpl in Hc |- *. tauto.
    - destruct (mem_str "label" (tcols df)); [|discriminate]. injection Hm as <-.
      split; [apply set_col_cols; right; reflexivity|].
      split; [intros c; apply set_col_cols|].
      split; [simpl; apply length_map|]. split; [apply Hset; auto|].
      intros Hs r Hr c Hc. apply set_col_rows_In in Hr. destruct Hr as [r0 [Hr0 ->]].
      destruct Hc as [<-|[<-|[]]].
      + rewrite rget_rset_same. apply Hs; [exact Hr0 | simpl; tauto].
      + rewrite rget_rset_other by discriminate. apply Hs; [exact Hr0 | simpl; tauto]. }
  destruct Hol as [Hol [Hcols [Hlen [Hrows Hstr]]]].
  exists a0. split; [|split; [|split; [|split]]].
  - intros c. destruct nc.
    + destruct (mem_str "clean_code" (tcols a)) eqn:E2.
      * injection Hm0 as <-. rewrite Hcols. apply mem_str_In in E2. rewrite Hcols in E2.
        split; [tauto | intros [H|[H|[_ H]]]; subst; auto].
      * destruct (mem_str "obo_id" (tcols a)); [|discriminate]. injection Hm0 as <-.
        rewrite set_col_cols, Hcols. split; [intros [[H|H]|H]; auto | intros [H|[H|[_ H]]]]; auto.
    + injection Hm0 as <-. rewrite Hcols. split; [tauto | intros [H|[H|[H _]]]; auto; discriminate].
  - destruct nc; [|injection Hm0 as <-; exact Hlen].
    destruct (mem_str "clean_code" (tcols a)); [injection Hm0 as <-; exact Hlen|].
    destruct (mem_str "obo_id" (tcols a)); [|discriminate]. injection Hm0 as <-.
    simpl. rewrite length_map. exact Hlen.
  - destruct nc; [|injection Hm0 as <-; exact Hrows].
    destruct (mem_str "clean_code" (tcols a)); [injection Hm0 as <-; exact Hrows|].
    destruct (mem_str "obo_id" (tcols a)); [|discriminate]. injection Hm0 as <-.
    apply Hset; auto.
  - intros Hs. destruct nc; [|injection Hm0 as <-; exact (Hstr Hs)].
    destruct (mem_str "clean_code" (tcols a)); [injection Hm0 as <-; exact (Hstr Hs)|].
    destruct (mem_str "obo_id" (tcols a)); [|discriminate]. injection Hm0 as <-.
    intros r Hr c Hc. apply set_col_rows_In in Hr. destruct Hr as [r0 [Hr0 ->]].
    destruct Hc as [<-|[<-|[]]].
    + rewrite rget_rset_other by discriminate. apply (Hstr Hs); [exact Hr0 | left; reflexivity].
    + rewrite rget_rset_same. unfold extract_clean_code.
      destruct (extract_code _); [right; eauto | left; reflexivity].
  - reflexivity.
Qed.

Lemma normalize_df_back fs (df2 : Table) (keep : list string) t :
  In "official_label" (tcols df2) ->
  let df3 := mkTable (tcols df2) (drop_duplicates keep (dropna keep (trows df2))) in
  let df4 := set_col df3 "official_label" (fun r => CStr (py_str fs (rget r "official_label"))) in
  t = (if mem_str "clean_code" (tcols df4)
       then set_col df4 "clean_code" (fun r => CStr (py_str fs (rget r "clean_code")))
       else df4) ->
  (forall c, In c (tcols t) <-> In c (tcols df2)) /\
  List.length (trows t) <= List.length (trows df2) /\
  (forall r, In r (trows t) ->
     (exists s, rget r "official_label" = CStr s) /\
     (In "clean_code" (tcols df2) -> exists s, rget r "clean_code" = CStr s) /\
     exists r3, In r3 (drop_duplicates keep (dropna keep (trows df2))) /\
       forall c, c <> "official_label" -> c <> "clean_code" -> rget r c = rget r3 c).
Proof.
  intros Hol df3 df4 ->.
  assert (Hc4 : forall c, In c (tcols df4) <-> In c (tcols df2)).
  { intros c. unfold df4. rewrite set_col_cols. cbn [tcols df3]. split; [intros [H| ->]; auto | auto]. }
  assert (Hlen4 : List.length (trows df4) <= List.length (trows df2)).
  { unfold df4, set_col. cbn [trows df3]. rewrite length_map.
    etransitivity; [apply drop_duplicates_aux_length|]. unfold dropna. apply filter_length_le. }
  assert (Hr4 : forall r, In r (trows df4) ->
            (exists s, rget r "official_label" = CStr s) /\
            exists r3, In r3 (drop_duplicates keep (dropna keep (trows df2))) /\
              forall c, c <> "official_label" -> rget r c = rget r3 c).
  { intros r Hr. unfold df4 in Hr. apply set_col_rows_In in Hr. destruct Hr as [r3 [Hr3 ->]].
    split; [rewrite rget_rset_same; eauto|]. exists r3. split; [exact Hr3|].
    intros c Hc. apply rget_rset_other. congruence. }
  destruct (mem_str "clean_code" (tcols df4)) eqn:Ecc.
  - split; [intros c; rewrite set_col_cols, Hc4; apply mem_str_In in Ecc; rewrite Hc4 in Ecc;
            split; [intros [H| ->]; auto | auto]|].
    split; [unfold set_col; cbn [trows]; rewrite length_map; exact Hlen4|].
    intros r Hr. apply set_col_rows_In in Hr. destruct Hr as [r4 [Hr4' ->]].
    destruct (Hr4 r4 Hr4') as [[s Hs] [r3 [Hr3 E]]].
    split; [rewrite rget_rset_other by discriminate; eauto|].
    split; [intros _; rewrite rget_rset_same; eauto|].
    exists r3. split; [exact Hr3|]. intros c H1 H2. rewrite rget_rset_other by congruence. apply E, H1.
  - split; [exact Hc4|]. split; [exact Hlen4|].
    intros r Hr. destruct (Hr4 r Hr) as [Hs [r3 [Hr3 E]]]. split; [exact Hs|].
    split; [intros H; apply Hc4, mem_str_In in H; congruence|].
    exists r3. split; [exact Hr3|]. intros c H1 _. apply E, H1.
Qed.

Lemma normalize_df_spec fs df nc t :
  normalize_df fs df nc = Ok t ->
  (forall c, In c (tcols t) <->
     In c (tcols df) \/ c = "official_label" \/ (nc = true /\ c = "clean_code")) /\
  List.length (trows t) <= List.length (trows df) /\
  (forall r, In r (trows t) ->
     (exists s, rget r "official_label" = CStr s) /\
     (nc = true -> exists s, rget r "clean_code" = CStr s) /\
     exists r0, In r0 (trows df) /\
       forall c, c <> "official_label" -> c <> "clean_code" -> rget r c = rget r0 c).
Proof.
  intros H. destruct (normalize_df_front fs df nc t H) as [df2 [Hc2 [Hl2 [Hr2 [_ Ht]]]]].
  cbv zeta in Ht.
  destruct (normalize_df_back fs df2 _ t (proj2 (Hc2 _) (or_intror (or_introl eq_refl))) Ht)
    as [Hc [Hl Hr]].
  split; [intros c; rewrite Hc, Hc2; reflexivity|].
  split; [lia|].
  intros r Hr'. destruct (Hr r Hr') as [Hs [Hcc [r3 [Hr3 E]]]].
  split; [exact Hs|]. split.
  - intros ->. apply Hcc, Hc2. right. right. auto.
  - unfold drop_duplicates in Hr3. apply drop_duplicates_aux_sub, dropna_In in Hr3.
    destruct Hr3 as [Hr3 _]. destruct (Hr2 r3 Hr3) as [r0 [Hr0 E0]].
    exists r0. split; [exact Hr0|]. intros c H1 H2. rewrite E, E0; auto.
Qed.




(** Without stage 3 the constructor stores the corpus deduplicated (same members, no repeats,
    unchanged if already distinct), keeps the queries and passes [corpus_df] through. *)
Theorem init_corpus_dedup fs method category query corpus cura topk s2 thr tp cdf e d :
  init fs method category query corpus cura topk s2 None thr tp cdf = Ok (e, d) ->
  NoDup (e_corpus e) /\ (forall x, In x (e_corpus e) <-> In x corpus) /\
  (NoDup corpus -> e_corpus e = corpus) /\ e_query e = query /\ d = cdf.
Proof.
  intros H. destruct (init_Ok _ _ _ _ _ _ _ _ _ _ _ _ _ _ H)
    as [_ [_ [_ [_ [Hq [_ [_ [_ [_ [_ [Hc Hd]]]]]]]]]]].
  rewrite Hc. destruct (pd_unique_spec corpus) as [H1 [H2 H3]]. auto.
Qed.

(** With stage 3 the constructor normalises [corpus_df] (with codes) and replaces the corpus by
    the distinct official labels of the normalised table, each row of which has a string code.
    *)
Theorem init_stage3_corpus fs method category query corpus cura topk s2 s3 thr tp cdf e d :
  init fs method category query corpus cura topk s2 (Some s3) thr tp cdf = Ok (e, d) ->
  exists df df', cdf = Some df /\ normalize_df fs df true = Ok df' /\ d = Some df' /\
    NoDup (e_corpus e) /\
    (forall x, In x (e_corpus e) <->
               exists r, In r (trows df') /\ rget r "official_label" = CStr x) /\
    (forall r, In r (trows df') -> exists c, rget r "clean_code" = CStr c).
Proof.
  intros H. destruct (init_Ok _ _ _ _ _ _ _ _ _ _ _ _ _ _ H)
    as [_ [_ [_ [_ [_ [_ [_ [_ [_ [_ [_ [df [df' [-> [Hn [-> Hc]]]]]]]]]]]]]]]].
  exists df, df'. split; [reflexivity|]. split; [exact Hn|]. split; [reflexivity|].
  destruct (normalize_df_spec fs df true df' Hn) as [_ [_ Hr]].
  rewrite Hc. destruct (pd_unique_spec (map (fun r => py_str fs (rget r "official_label")) (trows df')))
    as [H1 [H2 _]].
  split; [exact H1|]. split.
  - intros x. rewrite H2, in_map_iff. split.
    + intros [r [Hx Hr']]. exists r. split; [exact Hr'|].
      destruct (Hr r Hr') as [[s Hs] _]. rewrite Hs in Hx |- *. simpl in Hx. subst. reflexivity.
    + intros [r [Hr' Hx]]. exists r. split; [|exact Hr']. rewrite Hx. reflexivity.
  - intros r Hr'. apply (proj1 (proj2 (Hr r Hr'))). reflexivity.
Qed.

(** ** A constructed engine and [run] *)

(** An engine built by a successful constructor call never fails in [run], given a readable (or
    absent) abbreviation file and backends whose output has exactly one [original_value] column,
    no [updated_value] column, at most one [top1_score] column and an [original_value] column
    that pandas reads as [object] (it holds a string, or no row at all). *)
Theorem init_run_succeeds fs parse_num method category query corpus cura topk s2 s3 thr tp cdf
  e d abbr be :
  init fs method category query corpus cura topk s2 s3 thr tp cdf = Ok (e, d) ->
  (forall err, abbr <> AbbrBroken err) ->
  (forall strat qs cs k cm tp',
     count_occ string_dec (tcols (be strat qs cs k cm tp')) "original_value" = 1 /\
     ~ In "updated_value" (tcols (be strat qs cs k cm tp'))) ->
  (forall strat qs cs k cm tp',
     col_dtype (map backend_key (trows (be strat qs cs k cm tp'))) = DObject) ->
  (forall strat qs cs k cm tp',
     count_occ string_dec (tcols (be strat qs cs k cm tp')) "top1_score" <= 1) ->
  exists T, run parse_num e abbr be = Ok T.
Proof.
  intros H Hab Hshape Hdt Htop. destruct (init_Ok _ _ _ _ _ _ _ _ _ _ _ _ _ _ H)
    as [_ [H2 [_ [_ [_ [_ [_ [Hs2 [Hs3 [_ H3]]]]]]]]]].
  unfold run. destruct (non_exact_matches_ls e) as [|q rest] eqn:Hr; [eauto|].
  rewrite <- Hr.
  destruct (stage_table_succeeds e abbr be (e_s2_strategy e) (non_exact_matches_ls e) 2 Hab)
    as [s2res Hst]; [rewrite Hs2; apply mem_str_In; simpl in H2 |- *; tauto | apply Hshape
                     | apply Hdt |].
  rewrite Hst. cbn [bind].
  destruct (e_s3_strategy e) as [s|] eqn:Es; [|eauto].
  subst s3. cbn iota in H3. destruct H3 as [Hs _].
  destruct (negb (mem_str "top1_score" (tcols s2res))); [eauto|].
  destruct (stage_count_top1 _ _ _ _ _ _ _ Hst) as [qs' [cs' [k' [cm' [tp'' Hct]]]]].
  rewrite Hct. destruct (2 <=? _) eqn:E2.
  { apply Nat.leb_le in E2. specialize (Htop (e_s2_strategy e) qs' cs' k' cm' tp''). lia. }
  destruct (queries_for_s3 parse_num e s2res) as [|c cs] eqn:Hq; [eauto|]. rewrite <- Hq.
  destruct (mapM_succeeds as_str (queries_for_s3 parse_num e s2res)) as [qs3 Hqs3].
  { intros c' Hc'. destruct (queries_for_s3_rest parse_num e abbr be _ _ s2res c' Hst Hc')
      as [o [-> _]]. simpl. eauto. }
  rewrite Hqs3. cbn [bind].
  destruct (stage_table_succeeds e abbr be s qs3 3 Hab) as [t3 Ht3];
    [apply mem_str_In; simpl in Hs |- *; tauto | apply Hshape | apply Hdt |].
  rewrite Ht3. cbn [bind]. eauto.
Qed.

(** When every query is an exact match, [run] returns the stage-1 table and never consults the
    abbreviation file or a backend. *)
Theorem run_all_exact parse_num e abbr be :
  (forall q, In q (e_query e) -> is_exact e q = true) ->
  run parse_num e abbr be = Ok (exact_df e).
Proof.
  intros H. unfold run. destruct (non_exact_matches_ls e) as [|q rest] eqn:Hr; [reflexivity|].
  exfalso. assert (Hq : In q (non_exact_matches_ls e)) by (rewrite Hr; left; reflexivity).
  apply non_exact_In in Hq. destruct Hq as [Hq Hx]. apply Hx.
  apply in_map_iff in Hq. destruct Hq as [q0 [<- Hq0]].
  apply in_map, filter_In. split; [exact Hq0 | apply H, Hq0].
Qed.

(** When some query is not an exact match, a failure reading the abbreviation file is the error
    of [run], provided no query ends in a NUL character. *)
Theorem run_broken_abbr parse_num e be err q :
  (forall q0, In q0 (e_query e) -> np_str q0 = q0) ->
  In q (e_query e) -> is_exact e q = false ->
  run parse_num e (AbbrBroken err) be = Err err.
Proof.
  intros Hn Hq Hx.
  assert (Hin : In q (non_exact_matches_ls e)) by (apply (non_exact_In_plain e q Hn); auto).
  unfold run. destruct (non_exact_matches_ls e) as [|q' rest] eqn:Hr; [destruct Hin|].
  reflexivity.
Qed.

(** [run] only calls the backends of the configured stage-2 and stage-3 strategies: two backends
    that agree on those give the same result. *)
Theorem run_backend_only_configured parse_num e abbr be be' :
  (forall qs cs k cm tp, be' (e_s2_strategy e) qs cs k cm tp = be (e_s2_strategy e) qs cs k cm tp) ->
  (forall s3, e_s3_strategy e = Some s3 ->
     forall qs cs k cm tp, be' s3 qs cs k cm tp = be s3 qs cs k cm tp) ->
  run parse_num e abbr be' = run parse_num e abbr be.
Proof.
  intros H2 H3. unfold run. destruct (non_exact_matches_ls e) as [|q rest]; [reflexivity|].
  rewrite (stage_table_agree e abbr be be' _ _ _ H2).
  destruct (stage_table e abbr be (e_s2_strategy e) (q :: rest) 2) as [s2|msg]; cbn [bind];
    [|reflexivity].
  destruct (e_s3_strategy e) as [s3|] eqn:Es; [|reflexivity].
  destruct (negb (mem_str "top1_score" (tcols s2))); [reflexivity|].
  destruct (2 <=? count_occ string_dec (tcols s2) "top1_score"); [reflexivity|].
  destruct (queries_for_s3 parse_num e s2) as [|c cs]; [reflexivity|].
  destruct (mapM as_str (c :: cs)) as [qs3|msg]; cbn [bind]; [|reflexivity].
  rewrite (stage_table_agree e abbr be be' _ _ _ (H3 s3 eq_refl)). reflexivity.
Qed.

(** ** One stage *)

(** Every row of a stage table carries one of the stage queries as [original_value] and, as
    [curated_ontology], its curation-map entry or [Not Found]. *)
Theorem stage_curated_label e abbr be strat qs n t r :
  stage_table e abbr be strat qs n = Ok t -> In r (trows t) ->
  exists o, In o qs /\ rget r "original_value" = CStr o /\
    rget r "curated_ontology" =
      match dget (e_cura_map e) o with Some v => CStr v | None => CStr "Not Found" end.
Proof.
  intros H Hr. apply stage_table_Ok in H.
  destruct H as [rdf [uq [ucm [B [merged [Hp [Hb [Hm ->]]]]]]]].
  apply stage_prepare_Ok in Hp. destruct Hp as [Hrows [_ Hlen]].
  apply merge_left_Ok in Hm. destruct Hm as [_ Hmrows].
  simpl in Hr. rewrite map_map in Hr. apply in_map_iff in Hr. destruct Hr as [j [<- Hj]].
  rewrite Hmrows in Hj. apply in_flat_map in Hj. destruct Hj as [lr [Hlr Hj]].
  apply left_join_row_prefix in Hj. destruct Hj as [x ->].
  rewrite Hrows in Hlr. apply in_map_iff in Hlr. destruct Hlr as [[o u] [<- Hou]].
  exists o. split; [apply (in_combine_l _ _ _ _ Hou)|].
  split; [rewrite stage_fin_rget by discriminate; reflexivity|].
  rewrite rget_rset_other by discriminate. rewrite rget_rset_same.
  unfold curated_or_not_found. reflexivity.
Qed.

Lemma cura_fold_dget abbr qs m (l : Dict string) d0 d' u :
  map_shortname_to_fullname abbr qs = Ok m ->
  fold_left
    (fun acc kv =>
       d <- acc ;;
       if dmem m (fst kv)
       then (k' <- dindex m (fst kv) ;; Ok (dset d k' (snd kv)))
       else Ok d) l (Ok d0) = Ok d' ->
  dget d' u =
  fold_left (fun acc kv => if mem_str (fst kv) qs && String.eqb (expansion abbr (fst kv)) u
                           then Some (snd kv) else acc) l (dget d0 u).
Proof.
  intros Hd. revert d0; induction l as [|kv l IH]; intros d0 H; cbn [fold_left] in H |- *.
  - injection H as <-. reflexivity.
  - pose proof (resolver_Ok _ _ _ Hd (fst kv)) as Hk.
    assert (Hmem : dmem m (fst kv) = mem_str (fst kv) qs).
    { rewrite dmem_dget, Hk. destruct (mem_str (fst kv) qs); reflexivity. }
    cbn [bind] in H. rewrite Hmem in H. destruct (mem_str (fst kv) qs) eqn:Hq; cbn [andb].
    + unfold dindex in H. rewrite Hk in H. cbn [bind] in H.
      rewrite (IH _ H), dget_dset. reflexivity.
    + apply IH, H.
Qed.

(** The curation map handed to the backend has only expanded query names as keys; each key takes
    the value of the last curation entry whose key is a stage query expanding to it. *)
Theorem stage_cura_rekeyed e abbr qs rdf uq ucm :
  stage_prepare e abbr qs = Ok (rdf, uq, ucm) ->
  forall u, dget ucm u =
    fold_left (fun acc kv => if mem_str (fst kv) qs && String.eqb (expansion abbr (fst kv)) u
                             then Some (snd kv) else acc) (e_cura_map e) None.
Proof.
  intros H u. unfold stage_prepare in H. inv_bind H. inv_bind Hk. inv_bind Hk0.
  injection Hk as _ _ <-. apply (cura_fold_dget abbr qs a _ [] _ u Hm Hm1).
Qed.

(** With a readable abbreviation source, a stage fails on an unknown strategy with the strategy
    ValueError, on a backend output with neither [original_value] nor [updated_value] with a
    KeyError, and on one with both with the not-unique ValueError. *)
Theorem stage_errors e abbr be strat qs n :
  (forall err, abbr <> AbbrBroken err) ->
  (mem_str strat ["lm"; "st"; "rag"; "rag_bie"] = false ->
   stage_table e abbr be strat qs n =
     Err "ValueError: strategy should be 'st', 'lm', 'rag', or 'rag_bie'") /\
  (mem_str strat ["lm"; "st"; "rag"; "rag_bie"] = true ->
   (forall qs' cs k cm tp, ~ In "original_value" (tcols (be strat qs' cs k cm tp)) /\
                           ~ In "updated_value" (tcols (be strat qs' cs k cm tp))) ->
   stage_table e abbr be strat qs n = Err "KeyError: updated_value") /\
  (mem_str strat ["lm"; "st"; "rag"; "rag_bie"] = true ->
   (forall qs' cs k cm tp, In "original_value" (tcols (be strat qs' cs k cm tp)) /\
                           In "updated_value" (tcols (be strat qs' cs k cm tp))) ->
   stage_table e abbr be strat qs n =
     Err "ValueError: the column label 'updated_value' is not unique").
Proof.
  intros Hab. destruct (stage_prepare_succeeds e abbr qs Hab) as [rdf [uq [ucm Hp]]].
  unfold stage_table. rewrite Hp. cbn [bind]. unfold run_backend.
  split; [intros Hs; rewrite Hs; reflexivity|].
  split; intros Hs Hshape; rewrite Hs; cbn [bind];
    destruct (Hshape uq (e_corpus e) (e_topk e) ucm (e_test_or_prod e)) as [H1 H2];
    set (B := be strat uq (e_corpus e) (e_topk e) ucm (e_test_or_prod e)) in *;
    unfold merge_left.
  - assert (Hm : mem_str "updated_value" (tcols (rename_original B)) = false).
    { destruct (mem_str "updated_value" (tcols (rename_original B))) eqn:E; [|reflexivity].
      apply mem_str_In in E. unfold rename_original in E. cbn [tcols] in E.
      apply in_map_iff in E. destruct E as [c [Ec Hc]]. unfold rename_col in Ec.
      destruct (String.eqb c "original_value") eqn:Eo.
      - apply String.eqb_eq in Eo. subst. contradiction.
      - subst. contradiction. }
    rewrite Hm. reflexivity.
  - assert (Hm : mem_str "updated_value" (tcols (rename_original B)) = true).
    { apply mem_str_In. unfold rename_original. cbn [tcols].
      apply (in_map rename_col _ _ H2). }
    assert (Hc : 2 <= count_occ string_dec (tcols (rename_original B)) "updated_value").
    { unfold rename_original. cbn [tcols]. rewrite count_rename.
      apply (count_occ_In string_dec) in H1, H2. lia. }
    rewrite Hm. cbn [negb]. apply Nat.leb_le in Hc. rewrite Hc. reflexivity.
Qed.

(** Raising the stage-3 threshold can only add queries to the ones sent to stage 3. *)
Theorem escalation_monotone_threshold parse_num e e' s2 :
  (e_s3_threshold e <= e_s3_threshold e')%Q ->
  incl (queries_for_s3 parse_num e s2) (queries_for_s3 parse_num e' s2).
Proof.
  intros Ht c Hc. apply queries_for_s3_In in Hc. destruct Hc as [r [Hr [Hl <-]]].
  unfold queries_for_s3. apply (in_map (fun r => rget r "original_value")), filter_In. split; [exact Hr|].
  unfold low_confidence in *. apply Qlt_bool_iff in Hl. apply Qlt_bool_iff.
  apply (Qlt_le_trans _ _ _ Hl Ht).
Qed.

(** ** [str.strip] *)

Lemma drop_spaces_idem l : drop_spaces (drop_spaces l) = drop_spaces l.
Proof.
  induction l as [|a l IH]; [reflexivity|]. simpl. destruct (is_space a) eqn:E; [exact IH|].
  simpl. rewrite E. reflexivity.
Qed.

Lemma drop_spaces_app_last l a :
  is_space a = false -> exists m, drop_spaces (l ++ [a]) = m ++ [a].
Proof.
  intros Ha. induction l as [|b l IH]; simpl.
  - rewrite Ha. exists []. reflexivity.
  - destruct (is_space b); [exact IH|]. exists (b :: l). reflexivity.
Qed.

Lemma strip_strip s : strip (strip s) = strip s.
Proof.
  unfold strip at 2.
  set (L1 := drop_spaces (list_ascii_of_string s)).
  set (R := drop_spaces (rev L1)).
  assert (Hx : drop_spaces (rev R) = rev R).
  { destruct L1 as [|a t] eqn:EL.
    - subst R. reflexivity.
    - assert (Ha : is_space a = false).
      { assert (E : drop_spaces L1 = L1) by (unfold L1; apply drop_spaces_idem).
        rewrite EL in E. simpl in E. destruct (is_space a) eqn:Ea; [|reflexivity].
        exfalso. assert (Hlen := f_equal (@List.length ascii) E).
        assert (Hle : forall l, List.length (drop_spaces l) <= List.length l)
          by (induction l as [|b l IHl]; simpl; [lia|destruct (is_space b); simpl; lia]).
        specialize (Hle t). simpl in Hlen. lia. }
      destruct (drop_spaces_app_last (rev t) a Ha) as [m Hm].
      subst R. cbn [rev]. rewrite Hm, rev_app_distr. simpl. rewrite Ha. reflexivity. }
  unfold strip. rewrite list_ascii_of_string_of_list_ascii, Hx, rev_involutive.
  unfold R. rewrite drop_spaces_idem. reflexivity.
Qed.

Lemma abbr_lookup_strip rows c n : abbr_lookup rows c = Some n -> strip n = n.
Proof.
  unfold abbr_lookup.
  assert (G : forall acc, (forall n, acc = Some n -> strip n = n) ->
            forall n, fold_left (fun acc p => if String.eqb (strip (fst p)) c
                                               then Some (strip (snd p)) else acc) rows acc = Some n ->
            strip n = n).
  { induction rows as [|p rows IH]; intros acc Hacc; simpl; [exact Hacc|].
    apply IH. destruct (String.eqb (strip (fst p)) c); [|exact Hacc].
    intros n' E. injection E as <-. apply strip_strip. }
  apply G. discriminate.
Qed.

Lemma expansion_stripped abbr q : strip (expansion abbr q) = expansion abbr q.
Proof.
  unfold expansion. destruct abbr as [rows| |err]; try apply strip_strip.
  destruct (abbr_lookup rows (strip q)) as [n|] eqn:E; [apply (abbr_lookup_strip _ _ _ E)|].
  apply strip_strip.
Qed.

Lemma mapM_dindex_expansion abbr qs d uq :
  map_shortname_to_fullname abbr qs = Ok d ->
  forall l, incl l qs -> mapM (dindex d) l = Ok uq -> uq = map (expansion abbr) l.
Proof.
  intros Hd l. revert uq; induction l as [|q l IH]; intros uq Hl H; simpl in H.
  - injection H as <-. reflexivity.
  - inv_bind H. inv_bind Hk. injection Hk0 as <-.
    unfold dindex in Hm. rewrite (resolver_Ok _ _ _ Hd q) in Hm.
    assert (Hq : mem_str q qs = true) by (apply mem_str_In, Hl; left; reflexivity).
    rewrite Hq in Hm. injection Hm as <-. simpl. f_equal.
    apply IH; [intros x Hx; apply Hl; right; exact Hx | exact Hm0].
Qed.

Lemma combine_map_self {A B : Type} (f : A -> B) (l : list A) :
  combine l (map f l) = map (fun x => (x, f x)) l.
Proof. induction l as [|x l IH]; simpl; [reflexivity|]. rewrite IH. reflexivity. Qed.

Lemma stage_prepare_expansions e abbr qs rdf uq ucm :
  stage_prepare e abbr qs = Ok (rdf, uq, ucm) ->
  uq = map (expansion abbr) qs /\
  trows rdf = map (fun q => [("original_value", CStr q); ("updated_value", CStr (expansion abbr q))]) qs.
Proof.
  intros H. pose proof H as H'. apply stage_prepare_Ok in H'. destruct H' as [Hrows _].
  unfold stage_prepare in H. inv_bind H. inv_bind Hk. inv_bind Hk0. injection Hk as _ <- _.
  assert (Hu : a0 = map (expansion abbr) qs)
    by (apply (mapM_dindex_expansion abbr qs a a0 Hm qs (incl_refl _) Hm0)).
  split; [exact Hu|]. rewrite Hrows, Hu, combine_map_self, map_map. reflexivity.
Qed.

(** The stage sends the backend the expanded query names, one per query in order, each already
    stripped, and its query table pairs each query with its expansion. *)
Theorem stage_updated_queries e abbr qs rdf uq ucm :
  stage_prepare e abbr qs = Ok (rdf, uq, ucm) ->
  uq = map (expansion abbr) qs /\ (forall u, In u uq -> strip u = u) /\
  trows rdf = map (fun q => [("original_value", CStr q); ("updated_value", CStr (expansion abbr q))]) qs.
Proof.
  intros H. destruct (stage_prepare_expansions e abbr qs rdf uq ucm H) as [Hu Hrows].
  split; [exact Hu|]. split; [|exact Hrows].
  intros u Hin. rewrite Hu in Hin. apply in_map_iff in Hin. destruct Hin as [q [<- _]].
  apply expansion_stripped.
Qed.

(** ** Stage 1's columns *)

Lemma digits_aux_val fuel n acc :
  n < fuel ->
  dec_val (list_ascii_of_string (digits_aux fuel n acc)) =
  n * 10 ^ List.length (list_ascii_of_string acc) + dec_val (list_ascii_of_string acc).
Proof.
  revert n acc; induction fuel as [|f IH]; intros n acc Hn; [lia|]. cbn [digits_aux].
  assert (Hd : nat_of_ascii (ascii_of_nat (48 + n mod 10)) - 48 = n mod 10).
  { rewrite Ascii.nat_ascii_embedding; [lia|]. pose proof (Nat.mod_upper_bound n 10). lia. }
  destruct (n <? 10) eqn:E.
  - apply Nat.ltb_lt in E. cbn [list_ascii_of_string dec_val]. rewrite Hd, Nat.mod_small by exact E.
    reflexivity.
  - apply Nat.ltb_ge in E. assert (n / 10 < n) by (apply Nat.div_lt; lia). rewrite IH by lia.
    cbn [list_ascii_of_string dec_val List.length]. rewrite Hd. cbn [Nat.pow].
    pose proof (Nat.div_mod_eq n 10). nia.
Qed.

Lemma nat_str_val n : dec_val (list_ascii_of_string (nat_str n)) = n.
Proof. unfold nat_str. rewrite digits_aux_val by lia. simpl. lia. Qed.

Lemma digits_prefix a b x y :
  (forall c, In c (list_ascii_of_string a) -> is_digit c = true) ->
  (forall c, In c (list_ascii_of_string b) -> is_digit c = true) ->
  (a ++ String "_" x = b ++ String "_" y)%string -> a = b.
Proof.
  revert b; induction a as [|c a IH]; intros b Ha Hb E; destruct b as [|d b];
    simpl in E; injection E; intros.
  - reflexivity.
  - subst d. specialize (Hb "_"%char (or_introl eq_refl)). discriminate Hb.
  - subst c. specialize (Ha "_"%char (or_introl eq_refl)). discriminate Ha.
  - subst d. f_equal. apply IH; [intros c' H'; apply Ha; right; exact H'
                              | intros c' H'; apply Hb; right; exact H' | assumption].
Qed.

Lemma nat_str_inj i j : nat_str i = nat_str j -> i = j.
Proof. intros E. rewrite <- (nat_str_val i), <- (nat_str_val j), E. reflexivity. Qed.

Lemma top_match_inj i j : top_match i = top_match j -> i = j.
Proof.
  unfold top_match. simpl. intros E. injection E as E.
  apply nat_str_inj. apply (digits_prefix _ _ _ _ (nat_str_digits i) (nat_str_digits j) E).
Qed.

Lemma top_score_inj i j : top_score i = top_score j -> i = j.
Proof.
  unfold top_score. simpl. intros E. injection E as E.
  apply nat_str_inj. apply (digits_prefix _ _ _ _ (nat_str_digits i) (nat_str_digits j) E).
Qed.

Lemma fold_top_cols (l : list nat) (t : Table) :
  NoDup l ->
  (forall j, In j l -> ~ In (top_match j) (tcols t) /\ ~ In (top_score j) (tcols t)) ->
  tcols (fold_left
           (fun t i =>
              let t' := set_col t (top_match i) (fun r => rget r "curated_ontology") in
              set_col t' (top_score i) (fun _ => CFloat 1)) l t)
  = tcols t ++ flat_map (fun i => [top_match i; top_score i]) l.
Proof.
  revert t; induction l as [|i l IH]; intros t Hnd Hfresh; simpl; [symmetry; apply app_nil_r|].
  inversion Hnd as [|? ? Hi Hl]; subst.
  destruct (Hfresh i (or_introl eq_refl)) as [Hm Hs].
  assert (E : tcols (set_col (set_col t (top_match i) (fun r => rget r "curated_ontology"))
                       (top_score i) (fun _ => CFloat 1)) = tcols t ++ [top_match i; top_score i]).
  { assert (Hm' : mem_str (top_match i) (tcols t) = false)
      by (apply not_true_iff_false; rewrite mem_str_In; exact Hm).
    assert (Hs' : mem_str (top_score i) (tcols t ++ [top_match i]) = false).
    { apply not_true_iff_false. rewrite mem_str_In, in_app_iff. intros [H|[H|[]]]; [contradiction|].
      apply (top_match_score i i). exact H. }
    unfold set_col. cbn [tcols]. rewrite Hm'. cbn [tcols]. rewrite Hs', <- app_assoc. reflexivity. }
  rewrite IH; [rewrite E, <- app_assoc; reflexivity | exact Hl |].
  intros j Hj. rewrite E, !in_app_iff. cbn [In].
  assert (Hij : i <> j) by (intros ->; contradiction).
  destruct (Hfresh j (or_intror Hj)) as [Hmj Hsj].
  split; intros [H|[H|[H|[]]]]; try contradiction.
  - apply Hij, top_match_inj. congruence.
  - apply (top_match_score j i). congruence.
  - apply (top_match_score i j). congruence.
  - apply Hij, top_score_inj. congruence.
Qed.

(** The stage-1 table has the columns original_value, curated_ontology, match_level, stage, then
    top<i>_match and top<i>_score for i = 1..topk, in that order. *)
Theorem exact_df_columns e :
  tcols (exact_df e) =
  ["original_value"; "curated_ontology"; "match_level"; "stage"] ++
  flat_map (fun i => [top_match i; top_score i]) (seq 1 (e_topk e)).
Proof.
  unfold exact_df. rewrite fold_top_cols.
  - reflexivity.
  - apply seq_NoDup.
  - intros j _. cbn [tcols set_col mem_str existsb String.eqb Ascii.eqb Bool.eqb orb app].
    destruct (top_match_base j) as [A1 [A2 [A3 A4]]]. destruct (top_score_base j) as [B1 [B2 [B3 B4]]].
    simpl. split; intros [H|[H|[H|[H|[]]]]]; auto.
Qed.

(** ** The remaining queries *)

Lemma StronglySorted_lt_ext l1 l2 :
  StronglySorted str_lt l1 -> StronglySorted str_lt l2 ->
  (forall x, In x l1 <-> In x l2) -> l1 = l2.
Proof.
  revert l2; induction l1 as [|a l1 IH]; intros [|b l2] H1 H2 E.
  - reflexivity.
  - exfalso. apply (proj2 (E b)). left. reflexivity.
  - exfalso. apply (proj1 (E a)). left. reflexivity.
  - apply StronglySorted_inv in H1, H2. destruct H1 as [H1 F1]. destruct H2 as [H2 F2].
    rewrite Forall_forall in F1, F2.
    assert (Hab : a = b).
    { destruct (proj1 (E a) (or_introl eq_refl)) as [->|Ha]; [reflexivity|].
      destruct (proj2 (E b) (or_introl eq_refl)) as [->|Hb]; [reflexivity|].
      exfalso. apply (str_lt_irrefl a). apply (str_lt_trans _ b); [apply F1, Hb | apply F2, Ha]. }
    subst b. f_equal. apply IH; [exact H1 | exact H2|]. intros x. split; intros Hx.
    + destruct (proj1 (E x) (or_intror Hx)) as [<-|H]; [|exact H].
      exfalso. apply (str_lt_irrefl a), F1, Hx.
    + destruct (proj2 (E x) (or_intror Hx)) as [<-|H]; [|exact H].
      exfalso. apply (str_lt_irrefl a), F2, Hx.
Qed.

(** The remaining queries depend only on the set of queries: reordering or repeating them does
    not change the list. *)
Theorem non_exact_query_set e qs :
  (forall q, In q (e_query e) <-> In q qs) ->
  non_exact_matches_ls
    (mkEngine (e_method e) (e_category e) qs (e_corpus e) (e_cura_map e) (e_topk e)
              (e_s2_strategy e) (e_s3_strategy e) (e_s3_threshold e) (e_test_or_prod e))
  = non_exact_matches_ls e.
Proof.
  intros H. apply StronglySorted_lt_ext; try apply setdiff1d_StronglySorted.
  intros x. rewrite !non_exact_In. unfold exact_matching. cbn [e_query].
  rewrite !in_map_iff. setoid_rewrite filter_In. setoid_rewrite <- H. reflexivity.
Qed.

(** ** Normalising twice *)

Lemma rset_uniform (r : Row) c v : forall p, In p (rset r c v) -> fst p = c -> snd p = v.
Proof.
  unfold rset, dset. destruct (dmem r c) eqn:Hm; intros p Hp Hc.
  - apply in_map_iff in Hp. destruct Hp as [q [<- Hq]].
    destruct (String.eqb (fst q) c) eqn:E; [reflexivity|].
    rewrite Hc in E. rewrite String.eqb_refl in E. discriminate.
  - apply in_app_iff in Hp. destruct Hp as [Hp|[<-|[]]]; [|reflexivity].
    exfalso. assert (H : dmem r c = true) by (apply dmem_In; rewrite <- Hc; apply in_map, Hp).
    congruence.
Qed.

Lemma rset_uniform_other (r : Row) c c' v w :
  c <> c' -> (forall p, In p r -> fst p = c -> snd p = w) ->
  forall p, In p (rset r c' v) -> fst p = c -> snd p = w.
Proof.
  intros Hne Hr. unfold rset, dset. destruct (dmem r c') eqn:Hm; intros p Hp Hc.
  - apply in_map_iff in Hp. destruct Hp as [q [<- Hq]].
    destruct (String.eqb (fst q) c') eqn:E; [simpl in Hc; congruence | apply Hr; auto].
  - apply in_app_iff in Hp. destruct Hp as [Hp|[<-|[]]]; [apply Hr; auto | simpl in Hc; congruence].
Qed.

Lemma rset_same_uniform (r : Row) c v :
  rget r c <> CNull -> (forall p, In p r -> fst p = c -> snd p = v) -> rset r c v = r.
Proof.
  intros Hn Hu. unfold rset, dset.
  assert (Hm : dmem r c = true).
  { rewrite dmem_dget. unfold rget in Hn. destruct (dget r c); [reflexivity | congruence]. }
  rewrite Hm. rewrite <- (map_id r) at 2. apply map_ext_in. intros [a b] Hp. simpl.
  destruct (String.eqb a c) eqn:E; [|reflexivity].
  apply String.eqb_eq in E. subst a. specialize (Hu _ Hp eq_refl). simpl in Hu. subst b. reflexivity.
Qed.

Lemma dd_map keep seen rows (h : Row -> Row) :
  (forall r, In r rows -> map (rget (h r)) keep = map (rget r) keep) ->
  drop_duplicates_aux keep seen (map h (drop_duplicates_aux keep seen rows)) =
  map h (drop_duplicates_aux keep seen rows).
Proof.
  revert seen; induction rows as [|r rows IH]; intros seen Hk; [reflexivity|].
  cbn [drop_duplicates_aux].
  destruct (existsb (fun k' => forallb (fun p => py_eq (fst p) (snd p))
                                 (combine (map (rget r) keep) k')) seen) eqn:Hs.
  - apply IH. intros r' Hr'. apply Hk. right. exact Hr'.
  - cbn [map drop_duplicates_aux]. rewrite (Hk r (or_introl eq_refl)), Hs. f_equal.
    apply IH. intros r' Hr'. apply Hk. right. exact Hr'.
Qed.

Lemma normalize_tail_shape fs keep y :
  In "official_label" (tcols y) ->
  (let df3 := mkTable (tcols y) (drop_duplicates keep (dropna keep (trows y))) in
   let df4 := set_col df3 "official_label" (fun r => CStr (py_str fs (rget r "official_label"))) in
   if mem_str "clean_code" (tcols df4)
   then set_col df4 "clean_code" (fun r => CStr (py_str fs (rget r "clean_code")))
   else df4) =
  mkTable (tcols y)
    (map (fun r =>
            let r1 := rset r "official_label" (CStr (py_str fs (rget r "official_label"))) in
            if mem_str "clean_code" (tcols y)
            then rset r1 "clean_code" (CStr (py_str fs (rget r1 "clean_code")))
            else r1)
         (drop_duplicates keep (dropna keep (trows y)))).
Proof.
  intros Hol. apply mem_str_In in Hol. cbv zeta. unfold set_col. cbn [tcols trows].
  rewrite Hol. destruct (mem_str "clean_code" (tcols y)) eqn:Ecc.
  - rewrite map_map. reflexivity.
  - reflexivity.
Qed.

Lemma normalize_tail_idem fs keep (fin : Table -> Table) x :
  (forall y, fin y =
     mkTable (tcols y)
       (map (fun r =>
               let r1 := rset r "official_label" (CStr (py_str fs (rget r "official_label"))) in
               if mem_str "clean_code" (tcols y)
               then rset r1 "clean_code" (CStr (py_str fs (rget r1 "clean_code")))
               else r1)
            (drop_duplicates keep (dropna keep (trows y))))) ->
  (forall c, In c keep -> c = "official_label" \/ (c = "clean_code" /\ In "clean_code" (tcols x))) ->
  (forall r, In r (trows x) -> forall c, In c keep -> rget r c = CNull \/ exists s, rget r c = CStr s) ->
  fin (fin x) = fin x.
Proof.
  intros Hfin Hkeep Hstr. rewrite (Hfin (fin x)). rewrite Hfin at 1. cbn [tcols trows].
  set (h := fun r =>
              let r1 := rset r "official_label" (CStr (py_str fs (rget r "official_label"))) in
              if mem_str "clean_code" (tcols x)
              then rset r1 "clean_code" (CStr (py_str fs (rget r1 "clean_code")))
              else r1).
  rewrite Hfin. cbn [tcols trows]. fold h.
  set (D := drop_duplicates keep (dropna keep (trows x))).
  assert (Hol : forall r, exists s, rget (h r) "official_label" = CStr s).
  { intros r. unfold h. cbv zeta. destruct (mem_str "clean_code" (tcols x));
      [rewrite rget_rset_other by discriminate|]; rewrite rget_rset_same; eauto. }
  assert (Hcc : mem_str "clean_code" (tcols x) = true ->
                forall r, exists s, rget (h r) "clean_code" = CStr s).
  { intros E r. unfold h. cbv zeta. rewrite E, rget_rset_same. eauto. }
  assert (Hna : dropna keep (map h D) = map h D).
  { apply forallb_filter_id. apply forallb_forall. intros r' Hr'.
    apply in_map_iff in Hr'. destruct Hr' as [r [<- _]].
    apply forallb_forall. intros c Hc. apply negb_true_iff, is_null_false.
    destruct (Hkeep c Hc) as [->|[-> Hin]].
    - destruct (Hol r) as [s Hs]. rewrite Hs. discriminate.
    - apply mem_str_In in Hin. destruct (Hcc Hin r) as [s Hs]. rewrite Hs. discriminate. }
  assert (Hdd : drop_duplicates keep (map h D) = map h D).
  { unfold drop_duplicates, D. apply dd_map. intros r Hr. apply dropna_In in Hr.
    destruct Hr as [Hr Hnn]. apply map_ext_in. intros c Hc.
    destruct (Hstr r Hr c Hc) as [Hn|[s Hs]]; [specialize (Hnn c Hc); rewrite Hn in Hnn; discriminate|].
    destruct (Hkeep c Hc) as [->|[-> Hin]].
    - unfold h. cbv zeta. destruct (mem_str "clean_code" (tcols x));
        [rewrite rget_rset_other by discriminate|]; rewrite rget_rset_same, Hs; reflexivity.
    - apply mem_str_In in Hin. unfold h. cbv zeta. rewrite Hin, rget_rset_same.
      rewrite rget_rset_other by discriminate. rewrite Hs. reflexivity. }
  rewrite Hna, Hdd, map_map. f_equal. apply map_ext. intros r.
  destruct (Hol r) as [s1 Hs1].
  assert (Hu1 : forall p, In p (h r) -> fst p = "official_label" -> snd p = CStr s1).
  { unfold h in Hs1 |- *. cbv zeta in Hs1 |- *. destruct (mem_str "clean_code" (tcols x)).
    - rewrite rget_rset_other in Hs1 by discriminate. rewrite rget_rset_same in Hs1. rewrite <- Hs1.
      apply rset_uniform_other; [discriminate | apply rset_uniform].
    - rewrite rget_rset_same in Hs1. rewrite <- Hs1. apply rset_uniform. }
  assert (E1 : rset (h r) "official_label" (CStr (py_str fs (rget (h r) "official_label"))) = h r).
  { rewrite Hs1. cbn [py_str]. apply rset_same_uniform; [rewrite Hs1; discriminate | exact Hu1]. }
  change (h (h r) = h r). unfold h at 1. cbv beta zeta. fold (h r) in E1 |- *. rewrite E1. destruct (mem_str "clean_code" (tcols x)) eqn:Ecc; [|reflexivity].
  destruct (Hcc eq_refl r) as [s2 Hs2]. rewrite Hs2. cbn [py_str].
  apply rset_same_uniform; [rewrite Hs2; discriminate|].
  unfold h in Hs2 |- *. cbv zeta in Hs2 |- *.
  rewrite rget_rset_same in Hs2. rewrite <- Hs2. apply rset_uniform.
Qed.

(** Normalising a table whose label and code cells are strings or nulls gives a table that
    normalising again leaves unchanged. *)
Theorem normalize_df_idempotent_str fs df nc t :
  normalize_df fs df nc = Ok t ->
  (forall r, In r (trows df) -> forall c, In c ["official_label"; "label"; "clean_code"] ->
     rget r c = CNull \/ exists s, rget r c = CStr s) ->
  normalize_df fs t nc = Ok t.
Proof.
  intros H Hs. destruct (normalize_df_front fs df nc t H) as [df2 [Hc2 [_ [_ [Hstr Ht]]]]].
  specialize (Hstr Hs).
  set (keep := ["official_label"] ++ (if nc then ["clean_code"] else [])).
  set (fin := fun y =>
     mkTable (tcols y)
       (map (fun r =>
               let r1 := rset r "official_label" (CStr (py_str fs (rget r "official_label"))) in
               if mem_str "clean_code" (tcols y)
               then rset r1 "clean_code" (CStr (py_str fs (rget r1 "clean_code")))
               else r1)
            (drop_duplicates keep (dropna keep (trows y))))).
  assert (Hol2 : In "official_label" (tcols df2)) by (apply Hc2; auto).
  assert (Ht' : t = fin df2) by (rewrite Ht; exact (normalize_tail_shape fs keep df2 Hol2)).
  assert (Hct : tcols t = tcols df2) by (rewrite Ht'; reflexivity).
  assert (Holt : In "official_label" (tcols t)) by (rewrite Hct; exact Hol2).
  assert (Hn : normalize_df fs t nc = Ok (fin t)).
  { unfold normalize_df. rewrite (proj2 (mem_str_In _ _) Holt). cbn [bind].
    destruct nc.
    - rewrite (proj2 (mem_str_In "clean_code" _)) by (rewrite Hct; apply Hc2; auto).
      cbn [bind]. exact (f_equal Ok (normalize_tail_shape fs keep t Holt)).
    - cbn [bind]. exact (f_equal Ok (normalize_tail_shape fs keep t Holt)). }
  rewrite Hn, Ht'. f_equal. apply (normalize_tail_idem fs keep fin df2); [reflexivity| |].
  - intros c Hc. unfold keep in Hc. destruct nc; simpl in Hc.
    + destruct Hc as [<-|[<-|[]]]; [left; reflexivity | right; split; [reflexivity|]].
      apply Hc2. auto.
    + destruct Hc as [<-|[]]. left. reflexivity.
  - intros r Hr c Hc. apply (Hstr r Hr c). unfold keep in Hc. destruct nc; simpl in Hc |- *; tauto.
Qed.

(** ** How many rows a query gets from a stage *)

Lemma left_join_row_length rrows key rcols lr :
  List.length (left_join_row rrows key rcols lr) =
  Nat.max 1 (List.length (filter (fun rr => cell_eqb (rget rr key) (rget lr key)) rrows)).
Proof.
  unfold left_join_row. destruct (filter _ rrows) as [|m ms]; [reflexivity|].
  cbn [map List.length]. rewrite length_map. symmetry. apply Nat.max_r. lia.
Qed.

Lemma filter_map_length {A B : Type} (f : B -> bool) (g : A -> B) l :
  List.length (filter f (map g l)) = List.length (filter (fun x => f (g x)) l).
Proof. induction l as [|x l IH]; simpl; [reflexivity|]. destruct (f (g x)); simpl; lia. Qed.

Lemma count_occ_map_const (g : Row -> Cell) l c c' :
  (forall x, In x l -> g x = c') ->
  count_occ cell_eq_dec (map g l) c = if cell_eq_dec c' c then List.length l else 0.
Proof.
  induction l as [|x l IH]; intros H; simpl; [destruct (cell_eq_dec c' c); reflexivity|].
  rewrite (H x (or_introl eq_refl)), IH by (intros y Hy; apply H; right; exact Hy).
  destruct (cell_eq_dec c' c); reflexivity.
Qed.

(** A query that occurs k times among the stage queries occurs k * max(1, m) times as
    [original_value] of the stage table, where m is the number of backend rows for its
    expansion. *)
Theorem stage_row_multiplicity e abbr be strat qs n t rdf uq ucm B o :
  stage_prepare e abbr qs = Ok (rdf, uq, ucm) ->
  run_backend e be strat uq ucm = Ok B ->
  stage_table e abbr be strat qs n = Ok t ->
  count_occ cell_eq_dec (table_originals t) (CStr o) =
  count_occ string_dec qs o *
  Nat.max 1 (List.length (filter (fun rr => cell_eqb (backend_key rr) (CStr (expansion abbr o)))
                                 (trows B))).
Proof.
  intros Hp Hb H. apply stage_table_Ok in H.
  destruct H as [rdf' [uq' [ucm' [B' [merged [Hp' [Hb' [Hm ->]]]]]]]].
  rewrite Hp in Hp'. injection Hp' as <- <- <-. rewrite Hb in Hb'. injection Hb' as <-.
  destruct (stage_prepare_expansions e abbr qs rdf uq ucm Hp) as [_ Hrows].
  apply merge_left_Ok in Hm. destruct Hm as [_ Hmrows].
  unfold table_originals. cbn [trows set_col]. rewrite !map_map.
  rewrite (map_ext _ (fun j => rget j "original_value"))
    by (intros j; rewrite stage_fin_rget by discriminate; reflexivity).
  rewrite Hmrows, Hrows.
  set (rcols := filter (fun c => negb (String.eqb c "updated_value")) (tcols (rename_original B))).
  clearbody rcols. clear Hp Hb Hrows Hmrows.
  induction qs as [|q qs IH]; [reflexivity|].
  cbn [map flat_map]. rewrite map_app, count_occ_app. rewrite IH. clear IH.
  rewrite (count_occ_map_const _ _ _ (CStr q)).
  - rewrite left_join_row_length. cbn [rename_original trows].
    rewrite filter_map_length. cbn [count_occ]. unfold backend_key.
    assert (Hu : rget [("original_value", CStr q); ("updated_value", CStr (expansion abbr q))]
                      "updated_value" = CStr (expansion abbr q)) by reflexivity.
    rewrite Hu.
    destruct (cell_eq_dec (CStr q) (CStr o)) as [E|E], (string_dec q o) as [E'|E'];
      try (injection E as E); subst; try congruence; reflexivity.
  - intros j Hj. apply left_join_row_prefix in Hj. destruct Hj as [x ->]. reflexivity.
Qed.

(** A normalised table has the input columns plus official_label (and clean_code with codes), no
    more rows than the input, a string label (and code) in every row, and each row agrees with
    an input row outside those two columns. *)
Theorem normalize_df_result fs df nc t :
  normalize_df fs df nc = Ok t ->
  (forall c, In c (tcols t) <->
     In c (tcols df) \/ c = "official_label" \/ (nc = true /\ c = "clean_code")) /\
  List.length (trows t) <= List.length (trows df) /\
  (forall r, In r (trows t) ->
     (exists s, rget r "official_label" = CStr s) /\
     (nc = true -> exists s, rget r "clean_code" = CStr s) /\
     exists r0, In r0 (trows df) /\
       forall c, c <> "official_label" -> c <> "clean_code" -> rget r c = rget r0 c).
Proof. exact (normalize_df_spec fs df nc t). Qed.


(** ** Witnesses of the further properties *)

Lemma init_corpus_dedup_witness :
  ex_init None None = Ok (ex_init_ok None None) /\
  NoDup (e_corpus (fst (ex_init_ok None None))) /\
  (forall x, In x (e_corpus (fst (ex_init_ok None None))) <->
             In x ["lung adenocarcinoma"; "unknown"; "lung adenocarcinoma"]) /\
  (NoDup ["lung adenocarcinoma"; "unknown"; "lung adenocarcinoma"] ->
   e_corpus (fst (ex_init_ok None None)) = ["lung adenocarcinoma"; "unknown"; "lung adenocarcinoma"]) /\
  e_query (fst (ex_init_ok None None)) = ["Lung Cancer"; "XYZ"] /\
  snd (ex_init_ok None None) = None.
Proof.
  split; [vm_compute; reflexivity|].
  apply (init_corpus_dedup ex_float_str "mt" "disease" ["Lung Cancer"; "XYZ"]
           ["lung adenocarcinoma"; "unknown"; "lung adenocarcinoma"] [] 1 "lm" (9 # 10)
           (Some "test") None).
  vm_compute. reflexivity.
Defined.

Lemma init_stage3_corpus_witness :
  ex_init (Some "rag") (Some obo_table) = Ok (ex_init_ok (Some "rag") (Some obo_table)) /\
  exists df df', Some obo_table = Some df /\ normalize_df ex_float_str df true = Ok df' /\
    snd (ex_init_ok (Some "rag") (Some obo_table)) = Some df' /\
    NoDup (e_corpus (fst (ex_init_ok (Some "rag") (Some obo_table)))) /\
    (forall x, In x (e_corpus (fst (ex_init_ok (Some "rag") (Some obo_table)))) <->
               exists r, In r (trows df') /\ rget r "official_label" = CStr x) /\
    (forall r, In r (trows df') -> exists c, rget r "clean_code" = CStr c).
Proof.
  split; [vm_compute; reflexivity|].
  apply (init_stage3_corpus ex_float_str "mt" "disease" ["Lung Cancer"; "XYZ"]
           ["lung adenocarcinoma"; "unknown"; "lung adenocarcinoma"] [] 1 "lm" "rag" (9 # 10)
           (Some "test") (Some obo_table)).
  vm_compute. reflexivity.
Defined.

Lemma init_run_succeeds_witness :
  ex_init (Some "rag") (Some obo_table) = Ok (ex_init_ok (Some "rag") (Some obo_table)) /\
  exists T, run ex_parse (fst (ex_init_ok (Some "rag") (Some obo_table))) AbbrNotFound ex_backend = Ok T.
Proof.
  split; [vm_compute; reflexivity|].
  apply (init_run_succeeds ex_float_str ex_parse "mt" "disease" ["Lung Cancer"; "XYZ"]
           ["lung adenocarcinoma"; "unknown"; "lung adenocarcinoma"] [] 1 "lm" (Some "rag") (9 # 10)
           (Some "test") (Some obo_table) _ (snd (ex_init_ok (Some "rag") (Some obo_table)))).
  - vm_compute. reflexivity.
  - intros err H. discriminate H.
  - intros strat qs cs k cm tp. split; [reflexivity|].
    cbn. intros [H|[H|[H|[]]]]; discriminate H.
  - intros strat qs cs k cm tp. unfold ex_backend. cbn [trows].
    destruct (nodup string_dec qs); reflexivity.
  - intros strat qs cs k cm tp. apply le_n.
Defined.

Lemma run_all_exact_witness :
  (forall q, In q (e_query (ex_engine ["Lung Cancer"; " lung cancer"] (Some "rag"))) ->
     is_exact (ex_engine ["Lung Cancer"; " lung cancer"] (Some "rag")) q = true) /\
  run ex_parse (ex_engine ["Lung Cancer"; " lung cancer"] (Some "rag")) AbbrNotFound ex_backend =
    Ok (exact_df (ex_engine ["Lung Cancer"; " lung cancer"] (Some "rag"))).
Proof.
  assert (H : forall q, In q (e_query (ex_engine ["Lung Cancer"; " lung cancer"] (Some "rag"))) ->
     is_exact (ex_engine ["Lung Cancer"; " lung cancer"] (Some "rag")) q = true).
  { intros q [<-|[<-|[]]]; vm_compute; reflexivity. }
  split; [exact H|]. apply (run_all_exact ex_parse _ AbbrNotFound ex_backend H).
Defined.

Lemma run_broken_abbr_witness :
  (forall q0, In q0 (e_query ex_E3) -> np_str q0 = q0) /\
  In "XYZ" (e_query ex_E3) /\ is_exact ex_E3 "XYZ" = false /\
  run ex_parse ex_E3 (AbbrBroken "FileNotFoundError") ex_backend = Err "FileNotFoundError".
Proof.
  split; [apply np_str_fixed_all; vm_compute; reflexivity|].
  split; [left; reflexivity|]. split; [vm_compute; reflexivity|].
  apply (run_broken_abbr ex_parse ex_E3 ex_backend "FileNotFoundError" "XYZ");
    [apply np_str_fixed_all; vm_compute; reflexivity | left; reflexivity
    | vm_compute; reflexivity].
Defined.

Lemma run_backend_only_configured_witness :
  run ex_parse ex_E3 AbbrNotFound
      (fun s qs cs k cm tp => if String.eqb s "st" then ex_backend_no_score s qs cs k cm tp
                              else ex_backend s qs cs k cm tp) =
  run ex_parse ex_E3 AbbrNotFound ex_backend.
Proof.
  apply (run_backend_only_configured ex_parse ex_E3 AbbrNotFound ex_backend).
  - intros qs cs k cm tp. reflexivity.
  - intros s3 H. injection H as <-. intros qs cs k cm tp. reflexivity.
Defined.

Lemma stage_curated_label_witness :
  stage_table ex_E4 ex_abbr ex_backend "lm" (e_query ex_E4) 2 =
    Ok (res_table (stage_table ex_E4 ex_abbr ex_backend "lm" (e_query ex_E4) 2)) /\
  In (hd [] (trows (res_table (stage_table ex_E4 ex_abbr ex_backend "lm" (e_query ex_E4) 2))))
     (trows (res_table (stage_table ex_E4 ex_abbr ex_backend "lm" (e_query ex_E4) 2))) /\
  exists o, In o (e_query ex_E4) /\
    rget (hd [] (trows (res_table (stage_table ex_E4 ex_abbr ex_backend "lm" (e_query ex_E4) 2))))
         "original_value" = CStr o /\
    rget (hd [] (trows (res_table (stage_table ex_E4 ex_abbr ex_backend "lm" (e_query ex_E4) 2))))
         "curated_ontology" =
      match dget (e_cura_map ex_E4) o with Some v => CStr v | None => CStr "Not Found" end.
Proof.
  split; [vm_compute; reflexivity|]. split; [vm_compute; left; reflexivity|].
  apply (stage_curated_label ex_E4 ex_abbr ex_backend "lm" (e_query ex_E4) 2
           (res_table (stage_table ex_E4 ex_abbr ex_backend "lm" (e_query ex_E4) 2)));
    [vm_compute; reflexivity | vm_compute; left; reflexivity].
Defined.

Lemma stage_cura_rekeyed_witness :
  stage_prepare ex_E4 ex_abbr ["LC"; "abc"; "LC"] =
    Ok (mkTable ["original_value"; "updated_value"]
          [[("original_value", CStr "LC"); ("updated_value", CStr "Lung Cancer")];
           [("original_value", CStr "abc"); ("updated_value", CStr "abc")];
           [("original_value", CStr "LC"); ("updated_value", CStr "Lung Cancer")]],
        ["Lung Cancer"; "abc"; "Lung Cancer"], [("Lung Cancer", "lung carcinoma")]) /\
  forall u, dget [("Lung Cancer", "lung carcinoma")] u =
    fold_left (fun acc kv => if mem_str (fst kv) ["LC"; "abc"; "LC"] &&
                                String.eqb (expansion ex_abbr (fst kv)) u
                             then Some (snd kv) else acc) (e_cura_map ex_E4) None.
Proof.
  split; [vm_compute; reflexivity|].
  apply (stage_cura_rekeyed ex_E4 ex_abbr ["LC"; "abc"; "LC"]
           (mkTable ["original_value"; "updated_value"]
              [[("original_value", CStr "LC"); ("updated_value", CStr "Lung Cancer")];
               [("original_value", CStr "abc"); ("updated_value", CStr "abc")];
               [("original_value", CStr "LC"); ("updated_value", CStr "Lung Cancer")]])
           ["Lung Cancer"; "abc"; "Lung Cancer"]).
  vm_compute. reflexivity.
Defined.

Lemma stage_errors_witness :
  (forall err, ex_abbr <> AbbrBroken err) /\
  (mem_str "bm25" ["lm"; "st"; "rag"; "rag_bie"] = false ->
   stage_table ex_E4 ex_abbr ex_backend "bm25" (e_query ex_E4) 2 =
     Err "ValueError: strategy should be 'st', 'lm', 'rag', or 'rag_bie'") /\
  (mem_str "bm25" ["lm"; "st"; "rag"; "rag_bie"] = true ->
   (forall qs' cs k cm tp, ~ In "original_value" (tcols (ex_backend "bm25" qs' cs k cm tp)) /\
                           ~ In "updated_value" (tcols (ex_backend "bm25" qs' cs k cm tp))) ->
   stage_table ex_E4 ex_abbr ex_backend "bm25" (e_query ex_E4) 2 = Err "KeyError: updated_value") /\
  (mem_str "bm25" ["lm"; "st"; "rag"; "rag_bie"] = true ->
   (forall qs' cs k cm tp, In "original_value" (tcols (ex_backend "bm25" qs' cs k cm tp)) /\
                           In "updated_value" (tcols (ex_backend "bm25" qs' cs k cm tp))) ->
   stage_table ex_E4 ex_abbr ex_backend "bm25" (e_query ex_E4) 2 =
     Err "ValueError: the column label 'updated_value' is not unique").
Proof.
  assert (H : forall err, ex_abbr <> AbbrBroken err) by (intros err H; discriminate H).
  split; [exact H|]. apply (stage_errors ex_E4 ex_abbr ex_backend "bm25" (e_query ex_E4) 2 H).
Defined.

Lemma escalation_monotone_threshold_witness :
  (e_s3_threshold ex_E3 <= e_s3_threshold (mkEngine "mt" "disease" (e_query ex_E3) ["Lung Cancer"]
                                            [("Lung Cancer", "lung carcinoma")] 1 "lm" (Some "rag")
                                            1 "test"))%Q /\
  incl (queries_for_s3 ex_parse ex_E3 ex_S2)
       (queries_for_s3 ex_parse (mkEngine "mt" "disease" (e_query ex_E3) ["Lung Cancer"]
                                  [("Lung Cancer", "lung carcinoma")] 1 "lm" (Some "rag") 1 "test")
                       ex_S2).
Proof.
  assert (H : (e_s3_threshold ex_E3 <= e_s3_threshold (mkEngine "mt" "disease" (e_query ex_E3)
     ["Lung Cancer"] [("Lung Cancer", "lung carcinoma")] 1 "lm" (Some "rag") 1 "test"))%Q)
    by (unfold Qle; simpl; lia).
  split; [exact H|]. apply (escalation_monotone_threshold ex_parse _ _ ex_S2 H).
Defined.

Lemma stage_updated_queries_witness :
  stage_prepare ex_E4 ex_abbr ["LC"; "abc"; "LC"] =
    Ok (mkTable ["original_value"; "updated_value"]
          [[("original_value", CStr "LC"); ("updated_value", CStr "Lung Cancer")];
           [("original_value", CStr "abc"); ("updated_value", CStr "abc")];
           [("original_value", CStr "LC"); ("updated_value", CStr "Lung Cancer")]],
        ["Lung Cancer"; "abc"; "Lung Cancer"], [("Lung Cancer", "lung carcinoma")]) /\
  ["Lung Cancer"; "abc"; "Lung Cancer"] = map (expansion ex_abbr) ["LC"; "abc"; "LC"] /\
  (forall u, In u ["Lung Cancer"; "abc"; "Lung Cancer"] -> strip u = u) /\
  [[("original_value", CStr "LC"); ("updated_value", CStr "Lung Cancer")];
   [("original_value", CStr "abc"); ("updated_value", CStr "abc")];
   [("original_value", CStr "LC"); ("updated_value", CStr "Lung Cancer")]] =
  map (fun q => [("original_value", CStr q); ("updated_value", CStr (expansion ex_abbr q))])
      ["LC"; "abc"; "LC"].
Proof.
  split; [vm_compute; reflexivity|].
  apply (stage_updated_queries ex_E4 ex_abbr ["LC"; "abc"; "LC"]
           (mkTable ["original_value"; "updated_value"]
              [[("original_value", CStr "LC"); ("updated_value", CStr "Lung Cancer")];
               [("original_value", CStr "abc"); ("updated_value", CStr "abc")];
               [("original_value", CStr "LC"); ("updated_value", CStr "Lung Cancer")]])
           ["Lung Cancer"; "abc"; "Lung Cancer"] [("Lung Cancer", "lung carcinoma")]).
  vm_compute. reflexivity.
Defined.

Lemma non_exact_query_set_witness :
  (forall q, In q (e_query ex_E3) <-> In q ["abc"; "Lung Cancer"; "XYZ"; " lung cancer"]) /\
  non_exact_matches_ls
    (mkEngine (e_method ex_E3) (e_category ex_E3) ["abc"; "Lung Cancer"; "XYZ"; " lung cancer"]
              (e_corpus ex_E3) (e_cura_map ex_E3) (e_topk ex_E3) (e_s2_strategy ex_E3)
              (e_s3_strategy ex_E3) (e_s3_threshold ex_E3) (e_test_or_prod ex_E3))
  = non_exact_matches_ls ex_E3.
Proof.
  assert (H : forall q, In q (e_query ex_E3) <-> In q ["abc"; "Lung Cancer"; "XYZ"; " lung cancer"])
    by (intros q; simpl; tauto).
  split; [exact H|]. apply (non_exact_query_set ex_E3 _ H).
Defined.

Lemma normalize_df_result_witness :
  normalize_df ex_float_str obo_table true = Ok ex_normalized /\
  (forall c, In c (tcols ex_normalized) <->
     In c (tcols obo_table) \/ c = "official_label" \/ (true = true /\ c = "clean_code")) /\
  List.length (trows ex_normalized) <= List.length (trows obo_table) /\
  (forall r, In r (trows ex_normalized) ->
     (exists s, rget r "official_label" = CStr s) /\
     (true = true -> exists s, rget r "clean_code" = CStr s) /\
     exists r0, In r0 (trows obo_table) /\
       forall c, c <> "official_label" -> c <> "clean_code" -> rget r c = rget r0 c).
Proof.
  split; [vm_compute; reflexivity|].
  apply (normalize_df_result ex_float_str obo_table true ex_normalized). vm_compute. reflexivity.
Defined.

Lemma normalize_df_idempotent_str_witness :
  normalize_df ex_float_str obo_table true = Ok ex_normalized /\
  (forall r, In r (trows obo_table) -> forall c, In c ["official_label"; "label"; "clean_code"] ->
     rget r c = CNull \/ exists s, rget r c = CStr s) /\
  normalize_df ex_float_str ex_normalized true = Ok ex_normalized.
Proof.
  assert (H1 : normalize_df ex_float_str obo_table true = Ok ex_normalized)
    by (vm_compute; reflexivity).
  assert (H2 : forall r, In r (trows obo_table) ->
            forall c, In c ["official_label"; "label"; "clean_code"] ->
            rget r c = CNull \/ exists s, rget r c = CStr s).
  { intros r Hr c Hc. destruct Hr as [<-|[<-|[]]]; destruct Hc as [<-|[<-|[<-|[]]]];
      vm_compute; first [left; reflexivity | right; eexists; reflexivity]. }
  split; [exact H1|]. split; [exact H2|].
  apply (normalize_df_idempotent_str ex_float_str obo_table true ex_normalized H1 H2).
Defined.

Lemma stage_row_multiplicity_witness :
  stage_prepare ex_E4 ex_abbr (e_query ex_E4) =
    Ok (mkTable ["original_value"; "updated_value"]
          [[("original_value", CStr "LC"); ("updated_value", CStr "Lung Cancer")];
           [("original_value", CStr "abc"); ("updated_value", CStr "abc")];
           [("original_value", CStr "LC"); ("updated_value", CStr "Lung Cancer")]],
        ["Lung Cancer"; "abc"; "Lung Cancer"], [("Lung Cancer", "lung carcinoma")]) /\
  run_backend ex_E4 ex_backend "lm" ["Lung Cancer"; "abc"; "Lung Cancer"]
    [("Lung Cancer", "lung carcinoma")] =
    Ok (ex_backend "lm" ["Lung Cancer"; "abc"; "Lung Cancer"] ["Lung Cancer"] 1
                   [("Lung Cancer", "lung carcinoma")] "test") /\
  stage_table ex_E4 ex_abbr ex_backend "lm" (e_query ex_E4) 2 =
    Ok (res_table (stage_table ex_E4 ex_abbr ex_backend "lm" (e_query ex_E4) 2)) /\
  count_occ cell_eq_dec
    (table_originals (res_table (stage_table ex_E4 ex_abbr ex_backend "lm" (e_query ex_E4) 2)))
    (CStr "LC") =
  count_occ string_dec (e_query ex_E4) "LC" *
  Nat.max 1 (List.length (filter (fun rr => cell_eqb (backend_key rr) (CStr (expansion ex_abbr "LC")))
              (trows (ex_backend "lm" ["Lung Cancer"; "abc"; "Lung Cancer"] ["Lung Cancer"] 1
                        [("Lung Cancer", "lung carcinoma")] "test")))).
Proof.
  split; [vm_compute; reflexivity|]. split; [vm_compute; reflexivity|].
  split; [vm_compute; reflexivity|].
  apply (stage_row_multiplicity ex_E4 ex_abbr ex_backend "lm" (e_query ex_E4) 2
           (res_table (stage_table ex_E4 ex_abbr ex_backend "lm" (e_query ex_E4) 2))
           (mkTable ["original_value"; "updated_value"]
              [[("original_value", CStr "LC"); ("updated_value", CStr "Lung Cancer")];
               [("original_value", CStr "abc"); ("updated_value", CStr "abc")];
               [("original_value", CStr "LC"); ("updated_value", CStr "Lung Cancer")]])
           ["Lung Cancer"; "abc"; "Lung Cancer"] [("Lung Cancer", "lung carcinoma")]);
    vm_compute; reflexivity.
Defined.
